(* ===== verification/_CoqProject ===== *)
-Q . S2P
Prelude.v
NavConfig.v
NavState.v
ScrollLock.v
View.v
Runtime.v
Navbar.v
Page.v
