(* ===== verification/Prelude.v ===== *)
(** * A verification development of the kerkerker navigation bar

    The program is one React component, [Navbar]
    (src/components/home/Navbar.tsx): a top bar with a desktop link list
    and a "短剧" dropdown, a hamburger button that opens a slide-in
    sidebar on phones, a search button that calls the [onSearchOpen]
    prop, and an effect that locks the page's scroll while the sidebar is
    open. Its parts and how they interact:

    - the configuration [navItems] (lines 30-51), read by both lists;
    - the local state, two [useState] hooks (lines 16, 53), written only
      by the closures the render attaches to events (lines 69, 83, 103,
      104, 197, 233, 249) and read by the render and the effect;
    - the scroll-lock [useEffect] (lines 19-28), keyed on
      [isMobileMenuOpen], writing [document.body.style.overflow], the one
      resource the component shares with the page;
    - the render (lines 55-268): the top bar, whose background follows the
      [scrolled] prop, and the sidebar.

    ** Files

    - [Prelude] (this file): JavaScript notions ([===], truthiness), the
      [result] monad of a render that can throw, the hint databases
      [navbar] and [navbar_rw], list and result lemmas, tactics.
    - [NavConfig]: [NavItem], [NavChild], [Icon], [navItems], the filter
      of line 98 ([desktop_items]), keys and the well-formedness [item_wf].
    - [NavState]: [NavState] (the two hooks), the closures as the inductive
      [Handler] with their captured values, [apply_handler] (the setters)
      and module [Spec], the two state machines of section 4.1 of the
      specification, the abstract contract.
    - [ScrollLock]: the interface [StyleStore] (a CSS declaration block
      with its two store laws) and its implementation on [gmap]; the part
      of React's [useEffect] the component relies on ([effect_mount],
      [effect_commit], [effect_unmount], section [EffectHook]); the code
      [scroll_lock_effect] and [scroll_lock_cleanup], and the invariant
      [scroll_slot_ok] every commit keeps.
    - [View]: a virtual DOM ([Node], [Attr] with the handlers as data) and
      the render ([render_desktop_item], [render_nav], [render_mobile_item],
      [render_sidebar], [render_navbar], [Navbar]) transcribed from the
      JSX; the Tailwind classes that hide an element per viewport or turn
      its pointer events off ([displayed], [pointer_events]) and the
      elements a user can reach ([targets]), taking into account that the
      open overlay ([z-[60]]) covers the top bar ([z-50]); the paths a
      click bubbles through ([target_paths]); the elements in the tab
      order ([focus_targets], which ignore pointer events and stacking)
      and their paths ([focus_paths]); the [mouseleave]/[mouseenter]
      handlers React runs when the pointer moves between two positions
      ([hover_handlers], from the paths' common ancestors); React's key rule
      ([keys_ok]); the equivalence [view_equiv] of states the render
      cannot tell apart, with its [Proper] instance.
    - [Runtime]: a mounted instance ([Runtime]: props, viewport, state,
      committed effect, body style, outputs), the events ([step]: clicks
      and hovers on reachable elements, keyboard activations of focusable
      ones, pointer moves between positions, resize, parent re-render,
      unmount), the runs from [mount] ([reachable]), event sequences
      ([run]), the DOM's dispatch of a bubbling click ([dispatch_click]);
      the invariant of every run ([rt_inv]), the facts about the concrete
      configuration decided by evaluation, and the lemmas the theorems
      are proved from.
    - [Navbar]: the theorems about runs of [Runtime], and concrete runs on
      a page that witness them.
    - [Page]: compositions of runs over one shared [document.body]:
      two instances whose events interleave in any order ([Page],
      [page_step], [page_reachable]), each step of one writing the body
      the other then sees ([with_doc]); how one step of an instance can
      change the body ([doc_step]); and React's StrictMode mount, which
      runs the effect's cleanup and the effect again ([strict_mount]).

    ** Theorems

    - Scroll lock (C1, C2, C8, C16): in every run the body is locked
      exactly when the menu is open while mounted; unmounting restores
      ["unset"]; after growing past the [md] breakpoint with the menu open
      the lock persists and only the logo link releases it (a finding);
      mounting overwrites any inline overflow (a finding).
    - State machines (C3, C4, C17, C18): every event refines the
      contract of module [Spec]: an abstraction [spec_events] reads the
      specification's events off the element acted on (its tag and
      static attributes: the hamburger's aria-label, the backdrop's and
      the sidebar links' classes, the wrapper's key), and the new state
      is the old one moved by exactly those events ([step_refines_spec],
      using the invariant that [openDropdown] is [null] or "短剧"; the
      logo's click, which the spec does not list, is the one event
      without specification events, a finding); on a phone the hamburger
      opens the menu, the overlay then covers the hamburger, and the
      backdrop restores state and body (a round trip, and a finding: the
      spec's second hamburger press cannot happen); from every state of
      every run one click closes the menu and unlocks the scroll (C18);
      the wrapper the render gives any entry with children clears any
      open dropdown on leave, where the spec clears only a matching one
      (C17, a finding, unreachable with one such entry); from the
      keyboard the spec's double toggle holds (C21).
    - Controls (C5, C6, C7, C19, C20): phone links close the menu; search
      calls [onSearchOpen] once and changes nothing else, except on a
      phone with the menu open, where it is covered (a finding); hover
      opens and leave closes the dropdown with its two links; each event
      sends at most one output (C19); a click bubbling from any element
      acts on at most one reachable element, so modelling clicks on
      [targets] loses nothing (C20), and a keyboard activation acts on the
      focused element alone (C23); with the menu closed the invisible
      sidebar links stay in the tab order (C22, a finding).
    - Pointer and keyboard (C25-C28): the dropdown follows the pointer,
      open exactly while it is inside the "短剧" wrapper; pointer moves
      refine the element-level hover events; the open menu's links lie
      inside the wrapper, so reaching them keeps it open (against the
      spec's worry about a gap); keyboard-only runs never open the
      dropdown, so on a desktop its links are out of keyboard reach (a
      finding).
    - Render (C9-C15): the render throws exactly when an entry lacks an
      icon or a leaf lacks [href], so [Navbar] always renders; the history
      entry is mobile-only; only Github opens a new context; [scrolled]
      changes only the bar's class; a dropdown shows its children exactly
      when open; for any configuration with distinct keys, every sibling
      list of the tree has distinct React keys (C15); for any
      configuration the rendered links are those of a reference read off
      the configuration (C24); and at most one dropdown is open at a
      time, for any configuration with distinct keys (C29).
    - Shared body (C30-C32): with two instances on one page, in every
      interleaving the body is locked only while some mounted instance
      has its menu open (C30), but the lock is not counted: closing one
      sidebar unlocks the body under the other's open sidebar (C31, a
      finding); StrictMode's double effect leaves the state, the effect
      and the whole body as a single mount does (C32).

    ** Bounds

    No fuel is needed: every definition is structural ([run] recurses on
    the event list, [keys_ok] and [reachable_paths] on the tree).
    Statements about every state of the concrete configuration reduce, by
    [view_equiv], to four canonical states (menu open or not, "短剧" open
    or not), times the two values of [scrolled] and the two viewports,
    each decided by evaluation. [z_value] reads the [z-N] and [z-[N]]
    classes as decimal naturals; the component uses 50 and 60. No
    theorem is about termination: the component has no loop, every
    function of the model is structural, and React re-renders once per
    update since the effect of lines 19-28 calls no setter.

    ** Possible extensions

    Derive from C24 the configuration-independent forms of C11 and C12
    (the mobile-only and external links of any configuration); model the
    pointer's position as part of the runtime, so that a pointer move
    starts where the last one ended and re-renders under a resting
    pointer fire no events; compose more than two instances (the
    two-instance [page_inv] argument is per instance and generalises).

    ** Not modelled

    [HistoryPopup] (line 181; its source is not in the repository) is an
    opaque element; next/link's navigation is the output [Navigated] or
    [OpenedInNewContext], and whether navigating unmounts [Navbar] depends
    on the page, so unmount is a separate event; [useRouter] (line 15) is
    called and unused; icons, images and styling other than the classes
    that decide visibility and pointer events are data only. *)

From stdpp Require Import base list list_monad strings sets.

(** * Prelude: the shared vocabulary of the development

    The JavaScript notions the component uses (strict equality on a
    nullable string, truthiness of optional fields, template-literal class
    strings), a small error monad for rendering that can throw, the hint
    databases [navbar] and [navbar_rw] and the generic lemmas on lists and results that the
    component files share. *)

Declare Scope nav_scope.
Delimit Scope nav_scope with nav.
Open Scope string_scope.

Create HintDb navbar discriminated.
Create Rewrite HintDb navbar_rw.

(** ** JavaScript values *)

(** [a === b] on two values of type [string | null] (the type of the
    [openDropdown] state and of the labels it is compared with). *)
Definition js_strict_eq (a b : option string) : bool := bool_decide (a = b).
Notation "a === b" := (js_strict_eq a b) (at level 70, no associativity) : nav_scope.
Open Scope nav_scope.

(** Truthiness of an optional boolean field read off a JS object
    ([item.external ? ... : ...] with [external] absent or a boolean). *)
Definition truthy (o : option bool) : bool :=
  match o with Some b => b | None => false end.

(** ** A result monad for rendering, which can throw *)

Inductive result (E A : Type) : Type :=
| Ok (a : A)
| Err (e : E).
Arguments Ok {E A} a.
Arguments Err {E A} e.

#[export] Instance result_ret E : MRet (result E) := λ A a, Ok a.
#[export] Instance result_bind E : MBind (result E) :=
  λ A B f m, match m with Ok a => f a | Err e => Err e end.

Definition is_ok {E A} (r : result E A) : bool :=
  match r with Ok _ => true | Err _ => false end.

Section result_lemmas.
Context {E A B : Type}.



Lemma mapM_result_Ok (f : A → result E B) (l : list A) k :
  mapM f l = Ok k ↔ Forall2 (λ x y, f x = Ok y) l k.
Proof.
  revert k; induction l as [|x l IH]; intros k; simpl.
  - split; [intros [= <-]; constructor | by inversion 1].
  - split.
    + destruct (f x) eqn:Hf; simpl; [|done].
      destruct (mapM f l) eqn:Hl; simpl; [|done].
      intros [= <-]. constructor; [done|]. by apply IH.
    + inversion 1 as [|?? y k' Hy Hk]; subst. rewrite Hy; simpl.
      apply IH in Hk. by rewrite Hk.
Qed.

Lemma Forall2_result_fmap {C} (f : A → result E B) (g : B → C) (h : A → C) l k :
  Forall2 (λ x y, f x = Ok y) l k → (∀ x y, f x = Ok y → g y = h x) →
  g <$> k = h <$> l.
Proof.
  intros HF Hgh. induction HF as [|x y l k Hxy _ IH]; [done|].
  rewrite !fmap_cons. by rewrite (Hgh _ _ Hxy), IH.
Qed.

Lemma mapM_result_is_ok (f : A → result E B) (l : list A) :
  is_ok (mapM f l) = true ↔ Forall (λ x, is_ok (f x) = true) l.
Proof.
  induction l as [|x l IH]; simpl; [split; auto|].
  rewrite Forall_cons, <-IH.
  destruct (f x); simpl; [|split; [done|intros [??]; done]].
  destruct (mapM f l); simpl; naive_solver.
Qed.
Lemma mapM_result_ext (f g : A → result E B) (l : list A) :
  (∀ x, x ∈ l → f x = g x) → mapM f l = mapM g l.
Proof.
  induction l as [|x l IH]; intros Hfg; [done|]. simpl.
  rewrite (Hfg x) by set_solver. rewrite IH by set_solver. done.
Qed.

Lemma mapM_result_Forall (f : A → result E B) (P : B → Prop) (l : list A) k :
  mapM f l = Ok k → (∀ x y, x ∈ l → f x = Ok y → P y) → Forall P k.
Proof.
  intros Hk%mapM_result_Ok HP. induction Hk as [|x y l k Hxy _ IH]; constructor.
  - apply (HP x); [set_solver|done].
  - apply IH. intros x' y' Hx'. apply HP. set_solver.
Qed.

Lemma is_ok_bind_ret (m : result E A) (f : A → B) :
  is_ok (m ≫= λ a, Ok (f a)) = is_ok m.
Proof. by destruct m. Qed.

Lemma mapM_result_forallb (f : A → result E B) (l : list A) :
  is_ok (mapM f l) = forallb (λ x, is_ok (f x)) l.
Proof.
  apply eq_bool_prop_intro. rewrite !Is_true_true, mapM_result_is_ok.
  rewrite forallb_forall, Forall_forall. setoid_rewrite list_elem_of_In. done.
Qed.
End result_lemmas.


(** ** Lists *)

Lemma forallb_pointwise {A} (f g : A → bool) (l : list A) :
  (∀ x, f x = g x) → forallb f l = forallb g l.
Proof. intros Hfg. induction l as [|x l IH]; simpl; [done|]. by rewrite Hfg, IH. Qed.


Lemma NoDup_map_filter {A B} (f : A → B) (P : A → Prop) `{∀ x, Decision (P x)}
    (l : list A) :
  NoDup (f <$> l) → NoDup (f <$> filter P l).
Proof.
  induction l as [|x l IH]; [done|].
  rewrite fmap_cons, NoDup_cons. intros [Hx Hl].
  rewrite filter_cons. case_decide; [|by apply IH].
  rewrite fmap_cons.
  rewrite NoDup_cons. split; [|by apply IH].
  intros Hin. apply Hx. apply list_elem_of_fmap in Hin as (y & -> & Hy).
  apply list_elem_of_filter in Hy as [_ Hy]. by apply list_elem_of_fmap_2.
Qed.

#[export] Hint Resolve NoDup_map_filter : navbar.

Lemma Forall_mjoin_fmap {A B} (P : B → Prop) (g : A → list B) (l : list A) :
  Forall P (mjoin (g <$> l)) ↔ Forall (λ x, Forall P (g x)) l.
Proof.
  induction l as [|x l IH]; [split; constructor|].
  rewrite fmap_cons. cbn [mjoin list_join]. rewrite Forall_app, Forall_cons, IH. done.
Qed.

Lemma omap_mjoin {A B} (f : A → option B) (ls : list (list A)) :
  omap f (mjoin ls) = mjoin (omap f <$> ls).
Proof.
  induction ls as [|l ls IH]; [done|]. rewrite fmap_cons. cbn [mjoin list_join].
  rewrite omap_app. f_equal. exact IH.
Qed.

(** ** Tactics *)


(** Decide a closed, decidable statement about the concrete
    configuration by evaluation. *)
Ltac nav_decide := apply (bool_decide_unpack _); vm_compute; exact I.

(** ** Filters and folds *)

Lemma filter_nil_iff {A} (P : A → Prop) `{∀ x, Decision (P x)} (l : list A) :
  filter P l = [] ↔ ∀ x, x ∈ l → ¬ P x.
Proof.
  induction l as [|y l IH]; [set_solver|]. rewrite filter_cons. case_decide; [set_solver|].
  rewrite IH. set_solver.
Qed.

Lemma filter_singleton_inv {A} (P : A → Prop) `{∀ x, Decision (P x)} (l : list A) x :
  filter P l = [x] →
  ∃ l1 l2, l = (l1 ++ x :: l2)%list ∧ filter P l1 = [] ∧ filter P l2 = [] ∧ P x.
Proof.
  induction l as [|y l IH]; [done|]. rewrite filter_cons. case_decide.
  - intros [= -> Hl]. by exists [], l.
  - intros (l1 & l2 & -> & H1 & H2 & Hx)%IH. exists (y :: l1), l2.
    rewrite filter_cons, decide_False by done. done.
Qed.

Lemma foldl_frame {A B} (f : B → A → B) (l : list A) b :
  (∀ x c, x ∈ l → f c x = c) → foldl f b l = b.
Proof.
  revert b. induction l as [|x l IH]; intros b Hf; [done|]. simpl.
  rewrite Hf by set_solver. apply IH. set_solver.
Qed.

Lemma omap_all_None {A B} (f : A → option B) (l : list A) :
  (∀ x, x ∈ l → f x = None) → omap f l = [].
Proof.
  induction l as [|x l IH]; intros Hf; [done|]. simpl.
  rewrite Hf by set_solver. apply IH. set_solver.
Qed.

Lemma head_omap_cons {A B} (f : A → option B) x (l : list A) :
  omap f l = [] → head (omap f (x :: l)) = f x.
Proof. intros Hl. cbn. destruct (f x); simpl; by rewrite ?Hl. Qed.

(** ** Common prefixes *)

(** Drop the longest common prefix of two lists, returning what is left
    of each. *)
Fixpoint strip_common {A} `{EqDecision A} (a b : list A) : list A * list A :=
  match a, b with
  | x :: a', y :: b' => if decide (x = y) then strip_common a' b' else (a, b)
  | _, _ => (a, b)
  end.

Lemma strip_common_self {A} `{EqDecision A} (a : list A) : strip_common a a = ([], []).
Proof. induction a as [|x a IH]; simpl; [done|]. by rewrite decide_True. Qed.

(** ** Counting *)

Lemma NoDup_filter_eq {A B} `{EqDecision B} (f : A → B) (l : list A) b :
  NoDup (f <$> l) → (length (filter (λ x, f x = b) l) ≤ 1)%nat.
Proof.
  induction l as [|x l IH]; [simpl; lia|]. rewrite fmap_cons, NoDup_cons. intros [Hx Hl].
  rewrite filter_cons. case_decide as Hb; simpl; [|by apply IH].
  enough (filter (λ x, f x = b) l = []) as -> by (simpl; lia).
  apply filter_nil_iff. intros y Hy Hfy. apply Hx. rewrite Hb, <-Hfy. by apply list_elem_of_fmap_2.
Qed.

Lemma sum_indicator {A} (P : A → Prop) `{∀ x, Decision (P x)} (l : list A) :
  sum_list ((λ x, if bool_decide (P x) then 1 else 0) <$> l) = length (filter P l).
Proof.
  induction l as [|x l IH]; [done|]. rewrite fmap_cons, filter_cons. simpl.
  case_bool_decide; case_decide; simpl; try done; lia.
Qed.

Lemma length_filter_impl {A} (P Q : A → Prop) `{∀ x, Decision (P x)} `{∀ x, Decision (Q x)}
    (l : list A) :
  (∀ x, P x → Q x) → (length (filter P l) ≤ length (filter Q l))%nat.
Proof.
  intros HPQ. induction l as [|x l IH]; [done|]. rewrite !filter_cons.
  repeat case_decide; simpl; naive_solver lia.
Qed.
