(* ===== verification/NavConfig.v ===== *)
(** * NavConfig: the navigation items of [Navbar.tsx]

    The static configuration [navItems] (src/components/home/Navbar.tsx,
    lines 30-51) as data: every item is a JavaScript object whose optional
    fields are [option]s, so that [item.href!], [item.icon],
    [item.external ? ... : ...], ['mobileOnly' in item && item.mobileOnly]
    and [item.children ? ... : ...] read off exactly what the object holds.
    The file also holds the desktop filter of line 98 and the
    well-formedness conditions the render relies on. *)

From stdpp Require Import base list strings.
From S2P Require Import Prelude.

(** The icons imported from lucide-react (line 6). *)
Inductive Icon : Type :=
| Menu | X | Home | Film | Tv | Clock | Video | Github | Calendar | History.

#[export] Instance Icon_eq_dec : EqDecision Icon.
Proof. solve_decision. Defined.

(** An entry of a [children] array: [{ href, label }]. *)
Record NavChild : Type := mkNavChild {
  child_href : string;
  child_label : string;
}.

(** An entry of [navItems]; absent fields are [None]. *)
Record NavItem : Type := mkNavItem {
  href : option string;
  label : string;
  icon : option Icon;
  mobileOnly : option bool;
  external : option bool;
  children : option (list NavChild);
}.

(** A plain link entry [{ href, label, icon }]. *)
Definition link_item (h l : string) (i : Icon) : NavItem :=
  mkNavItem (Some h) l (Some i) None None None.

(** The array literal of lines 30-51, in order. *)
Definition navItems : list NavItem := [
  link_item "/" "首页" Home;
  link_item "/browse/movies" "电影" Film;
  link_item "/browse/tv" "电视剧" Tv;
  link_item "/calendar" "追剧日历" Calendar;
  link_item "/browse/latest" "最新" Clock;
  mkNavItem (Some "/history") "历史记录" (Some History) (Some true) None None;
  mkNavItem None "短剧" (Some Video) None None
    (Some [mkNavChild "/shorts" "短剧"; mkNavChild "/dailymotion" "短剧Motion"]);
  mkNavItem (Some "https://github.com/unilei/kerkerker") "Github" (Some Github)
    None (Some true) None
].

(** ['mobileOnly' in item && item.mobileOnly] (line 98). *)
Definition is_mobile_only (item : NavItem) : bool := truthy (mobileOnly item).

(** The filter of line 98: the items the desktop list renders. *)
Definition desktop_items (items : list NavItem) : list NavItem :=
  filter (λ item, negb (is_mobile_only item) = true) items.

(** The [target] attribute of a leaf link (lines 147 and 248). *)
Definition link_target (item : NavItem) : option string :=
  if truthy (external item) then Some "_blank" else None.

(** The React key of a top-level entry: [item.label] for a group with
    children (lines 101, 222) and [item.href] for a link (lines 145, 246). *)
Definition item_key (item : NavItem) : option string :=
  match children item with Some _ => Some (label item) | None => href item end.

(** ** Well-formedness the render depends on *)

(** A top-level entry renders without throwing on the mobile list when it
    has an icon, and a leaf renders its [Link] only when [href] is set
    ([item.href!] is only a type assertion). *)
Definition item_wf (item : NavItem) : bool :=
  bool_decide (is_Some (icon item)) &&
  match children item with Some _ => true | None => bool_decide (is_Some (href item)) end.
