(* ===== verification/NavState.v ===== *)
(** * NavState: the local state of [Navbar] and its event handlers

    The two [useState] hooks of [Navbar] (lines 16 and 53 of
    src/components/home/Navbar.tsx) form the record [NavState]. Every
    arrow function the JSX attaches to an event (lines 69, 83, 103, 104,
    161, 197, 233, 249) is one of the handlers of the inductive [Handler],
    its captured values written out: the hamburger's
    [() => setIsMobileMenuOpen(!isMobileMenuOpen)] is
    [SetIsMobileMenuOpen (negb b)] where [b] is the value of the render
    that created it. [apply_handler] is what the handler does to the
    state; [handler_outputs] is what it sends out of the component.

    The module [Spec] is the abstract contract of section 4.1 of the
    specification: the two state machines [isMobileMenuOpen] and
    [openDropdown] as the spec words them, their events [Spec.Event]
    and what a sequence of events does ([Spec.run]). *)

From stdpp Require Import base list strings.
From S2P Require Import Prelude.

(** The state of a mounted [Navbar] instance. *)
Record NavState : Type := mkNavState {
  isMobileMenuOpen : bool;        (* useState(false), line 16 *)
  openDropdown : option string;   (* useState<string | null>(null), line 53 *)
}.

Definition initial_state : NavState := mkNavState false None.

#[export] Instance NavState_eq_dec : EqDecision NavState.
Proof. solve_decision. Defined.

(** The closures the render attaches to events. *)
Inductive Handler : Type :=
| SetIsMobileMenuOpen (b : bool)     (* lines 69, 83, 197, 233, 249 *)
| SetOpenDropdown (o : option string) (* lines 103, 104 *)
| OnSearchOpen.                      (* line 161: the prop itself *)

#[export] Instance Handler_eq_dec : EqDecision Handler.
Proof. solve_decision. Defined.

(** What the component sends to the outside world. *)
Inductive Output : Type :=
| SearchOpened                   (* onSearchOpen() was called *)
| Navigated (h : string)         (* client-side navigation by a Link *)
| OpenedInNewContext (h : string). (* a target="_blank" link *)

#[export] Instance Output_eq_dec : EqDecision Output.
Proof. solve_decision. Defined.

(** A state setter of [useState] replaces the slot's value. *)
Definition apply_handler (h : Handler) (s : NavState) : NavState :=
  match h with
  | SetIsMobileMenuOpen b => mkNavState b (openDropdown s)
  | SetOpenDropdown o => mkNavState (isMobileMenuOpen s) o
  | OnSearchOpen => s
  end.

(** An element without a handler for the event leaves the state as it is. *)
Definition apply_opt (oh : option Handler) (s : NavState) : NavState :=
  match oh with Some h => apply_handler h s | None => s end.

Definition handler_outputs (h : Handler) : list Output :=
  match h with OnSearchOpen => [SearchOpened] | _ => [] end.

(** The hamburger's closure, as created by a render of state [s]. *)
Definition hamburger_handler (s : NavState) : Handler :=
  SetIsMobileMenuOpen (negb (isMobileMenuOpen s)).

(** [useState] bails out of re-rendering when the new value is the same
    ([Object.is]); a state change is what triggers the render and the
    effect commit. *)
Definition state_changed (s s' : NavState) : bool := bool_decide (s ≠ s').

(** ** The contract of section 4.1 of the specification *)
Module Spec.
(** Transitions of [isMobileMenuOpen] as the spec lists them. *)
Inductive MenuEvent : Type :=
| Hamburger | BackdropClick | SidebarLinkClick.

Definition menu_step (e : MenuEvent) (open : bool) : bool :=
  match e with
  | Hamburger => negb open
  | BackdropClick | SidebarLinkClick => false
  end.

(** Transitions of [openDropdown]: pointer-enter opens [L]; pointer-leave
    of [L] clears it "if it currently matches". *)
Inductive DropdownEvent : Type :=
| PointerEnter (L : string) | PointerLeave (L : string).

Definition dropdown_step (e : DropdownEvent) (o : option string) : option string :=
  match e with
  | PointerEnter L => Some L
  | PointerLeave L => if o === Some L then None else o
  end.

(** An event of one of the two machines; it moves its own machine and
    leaves the other as it is. *)
Inductive Event : Type :=
| EMenu (e : MenuEvent)
| EDropdown (e : DropdownEvent).

Definition apply (e : Event) (s : NavState) : NavState :=
  match e with
  | EMenu e => mkNavState (menu_step e (isMobileMenuOpen s)) (openDropdown s)
  | EDropdown e => mkNavState (isMobileMenuOpen s) (dropdown_step e (openDropdown s))
  end.

(** A sequence of events, in order. *)
Definition run (es : list Event) (s : NavState) : NavState :=
  foldl (λ s e, apply e s) s es.
End Spec.
