(* ===== verification/ScrollLock.v ===== *)
(** * ScrollLock: the body-scroll effect of [Navbar] and the effect hook

    The [useEffect] of lines 19-28 of src/components/home/Navbar.tsx writes
    [document.body.style.overflow]: ["hidden"] while the mobile menu is
    open, ["unset"] otherwise, and returns a cleanup that writes ["unset"].

    - [StyleStore] is the interface the effect needs from the document: a
      CSS declaration block read and written by property name, with the
      two laws of a store. The theorems about the effect are proved
      against the interface; [body_style_store] implements it with a
      [gmap string string] (the inline declarations of [document.body]).
    - [EffectHook] is the part of React's [useEffect] contract the
      component relies on: the effect runs after the first commit, re-runs
      after a commit whose dependency changed (the previous cleanup first),
      and on unmount the last cleanup runs.
    - [scroll_lock_effect] and [scroll_lock_cleanup] are the code. *)

From stdpp Require Import base list strings gmap.
From S2P Require Import Prelude.

(** ** The document's style declarations, as an interface *)

Class StyleStore (D : Type) : Type := {
  style_get : D → string → string;        (* element.style[p]; "" when unset *)
  style_set : D → string → string → D;    (* element.style[p] = v *)
  style_get_set_eq d p v : style_get (style_set d p v) p = v;
  style_get_set_ne d p q v : p ≠ q → style_get (style_set d p v) q = style_get d q;
}.

#[export] Hint Rewrite @style_get_set_eq : navbar_rw.

(** The inline style of [document.body]: assigning [""] removes the
    declaration, reading an absent one gives [""]. *)
Abbreviation BodyStyle := (gmap string string).

Definition body_get (d : BodyStyle) (p : string) : string := default "" (d !! p).
Definition body_set (d : BodyStyle) (p v : string) : BodyStyle :=
  if decide (v = "") then delete p d else <[p:=v]> d.

#[export] Program Instance body_style_store : StyleStore BodyStyle := {|
  style_get := body_get;
  style_set := body_set;
|}.
Next Obligation.
  intros d p v. unfold body_get, body_set.
  case_decide; [rewrite lookup_delete_eq | rewrite lookup_insert_eq]; by subst.
Qed.
Next Obligation.
  intros d p q v Hne. unfold body_get, body_set.
  case_decide; [by rewrite lookup_delete_ne | by rewrite lookup_insert_ne].
Qed.

(** ** React's effect hook *)

Section EffectHook.
Context {D Deps : Type} `{EqDecision Deps}.
Variable effect : Deps → D → D * (D → D).

(** What React keeps for a committed effect: its dependency array and
    the cleanup the effect returned. *)
Record EffectSlot : Type := mkEffectSlot {
  slot_deps : Deps;
  slot_cleanup : D → D;
}.

Definition effect_mount (deps : Deps) (d : D) : EffectSlot * D :=
  let '(d', c) := effect deps d in (mkEffectSlot deps c, d').

(** A commit after a re-render: the effect is skipped when every
    dependency is [Object.is]-equal to the previous one. *)
Definition effect_commit (slot : EffectSlot) (deps : Deps) (d : D) : EffectSlot * D :=
  if decide (slot_deps slot = deps) then (slot, d)
  else effect_mount deps (slot_cleanup slot d).

Definition effect_unmount (slot : EffectSlot) (d : D) : D := slot_cleanup slot d.

Lemma effect_mount_fst deps d :
  (effect_mount deps d).1 = mkEffectSlot deps (effect deps d).2.
Proof. unfold effect_mount. by destruct (effect deps d). Qed.

Lemma effect_mount_snd deps d : (effect_mount deps d).2 = (effect deps d).1.
Proof. unfold effect_mount. by destruct (effect deps d). Qed.
End EffectHook.

Arguments EffectSlot : clear implicits.

(** ** The effect of lines 19-28 *)

Section ScrollLockEffect.
Context {D : Type} `{StyleStore D}.

(** The value the effect writes for a given [isMobileMenuOpen]. *)
Definition overflow_value (isOpen : bool) : string :=
  if isOpen then "hidden" else "unset".

(** [return () => { document.body.style.overflow = "unset"; }] *)
Definition scroll_lock_cleanup (d : D) : D := style_set d "overflow" "unset".

(** The effect body with its returned cleanup. *)
Definition scroll_lock_effect (isMobileMenuOpen : bool) (d : D) : D * (D → D) :=
  let d' := if isMobileMenuOpen then style_set d "overflow" "hidden"
            else style_set d "overflow" "unset" in
  (d', scroll_lock_cleanup).

(** The body is locked when the inline overflow is ["hidden"]. *)
Definition scroll_locked (d : D) : Prop := style_get d "overflow" = "hidden".
End ScrollLockEffect.

(** ** The effect keeps the body's overflow in step with the state *)

Section ScrollLockProofs.
Context {D : Type} `{StyleStore D}.

(** The invariant of a committed scroll-lock effect: React holds the
    cleanup the effect returned, and the body's overflow is the value
    the effect wrote for the dependency React remembers. *)
Definition scroll_slot_ok (slot : EffectSlot D bool) (d : D) : Prop :=
  slot_cleanup slot = scroll_lock_cleanup ∧
  style_get d "overflow" = overflow_value (slot_deps slot).

Lemma scroll_lock_effect_overflow b d :
  style_get (scroll_lock_effect b d).1 "overflow" = overflow_value b.
Proof. destruct b; simpl; by autorewrite with navbar_rw. Qed.

Lemma scroll_lock_effect_frame b d q :
  q ≠ "overflow" → style_get (scroll_lock_effect b d).1 q = style_get d q.
Proof. intros Hq. destruct b; simpl; by apply style_get_set_ne. Qed.

Lemma scroll_mount_ok b d :
  slot_deps (effect_mount scroll_lock_effect b d).1 = b ∧
  scroll_slot_ok (effect_mount scroll_lock_effect b d).1
                 (effect_mount scroll_lock_effect b d).2.
Proof.
  rewrite effect_mount_fst, effect_mount_snd. unfold scroll_slot_ok; simpl.
  split_and!; [done..|]. apply scroll_lock_effect_overflow.
Qed.

(** A commit keeps the invariant, and afterwards React remembers the
    state the render committed, whether the effect re-ran or not. *)
Lemma scroll_commit_ok slot b d :
  scroll_slot_ok slot d →
  slot_deps (effect_commit scroll_lock_effect slot b d).1 = b ∧
  scroll_slot_ok (effect_commit scroll_lock_effect slot b d).1
                 (effect_commit scroll_lock_effect slot b d).2.
Proof.
  intros Hok. unfold effect_commit. case_decide as Hb; [by subst|].
  apply scroll_mount_ok.
Qed.

Lemma scroll_commit_frame slot b d q :
  scroll_slot_ok slot d → q ≠ "overflow" →
  style_get (effect_commit scroll_lock_effect slot b d).2 q = style_get d q.
Proof.
  intros [Hc _] Hq. unfold effect_commit. case_decide; [done|].
  rewrite effect_mount_snd, scroll_lock_effect_frame by done.
  rewrite Hc. by apply style_get_set_ne.
Qed.

Lemma scroll_unmount_unset slot d :
  scroll_slot_ok slot d → style_get (effect_unmount slot d) "overflow" = "unset".
Proof.
  intros [Hc _]. unfold effect_unmount. rewrite Hc. unfold scroll_lock_cleanup.
  by autorewrite with navbar_rw.
Qed.

Lemma scroll_unmount_frame slot d q :
  scroll_slot_ok slot d → q ≠ "overflow" →
  style_get (effect_unmount slot d) q = style_get d q.
Proof.
  intros [Hc _] Hq. unfold effect_unmount. rewrite Hc. by apply style_get_set_ne.
Qed.

Lemma scroll_slot_ok_locked slot d :
  scroll_slot_ok slot d → scroll_locked d ↔ slot_deps slot = true.
Proof.
  intros [_ Hd]. unfold scroll_locked. rewrite Hd.
  destruct (slot_deps slot); simpl; split; congruence.
Qed.
End ScrollLockProofs.

#[export] Hint Resolve scroll_commit_ok scroll_mount_ok : navbar.
