(* ===== verification/View.v ===== *)
(** * View: the render of [Navbar] as a virtual DOM

    The JSX of lines 55-268 of src/components/home/Navbar.tsx as a pure
    function of the props, the configuration and the state into a tree of
    [Node]s: elements carry their class string, key, link target and the
    handlers of [NavState] as data, so that what a click does is read off
    the rendered tree. Rendering can throw (a [<Icon/>] whose [item.icon]
    is undefined, a [<Link>] whose [href] is undefined), so it returns a
    [result]. The file also holds the part of the browser the component
    relies on: the Tailwind classes that hide an element per viewport,
    switch its pointer events and stack the fixed layers ([z-index]),
    which elements a user can reach ([targets]) and the paths a click
    bubbles through ([target_paths]); and React's rule that keyed
    siblings have distinct keys ([keys_ok]). *)

From Stdlib Require Import Ascii.
From stdpp Require Import base list strings sets.
From S2P Require Import Prelude NavConfig NavState.

(** ** The virtual DOM *)

Inductive Tag : Type := TNav | TDiv | TButton | TSpan | TImg | TSvg | TPath | TH2 | TP.

Inductive Elt : Type :=
| ETag (t : Tag)
| ELink                 (* next/link *)
| EIcon (i : Icon)      (* a lucide-react icon *)
| EHistoryPopup.        (* the collaborator of line 181 *)

#[export] Instance Tag_eq_dec : EqDecision Tag.
Proof. solve_decision. Defined.
#[export] Instance Elt_eq_dec : EqDecision Elt.
Proof. solve_decision. Defined.

Inductive Attr : Type :=
| AClass (c : string)
| AKey (k : string)
| AHref (h : string)
| ATarget (t : option string)
| AOnClick (h : Handler)
| AOnMouseEnter (h : Handler)
| AOnMouseLeave (h : Handler)
| AAriaLabel (s : string)
| AProp (name value : string).  (* a static prop: src, alt, fill, d, ... *)

#[export] Instance Attr_eq_dec : EqDecision Attr.
Proof. solve_decision. Defined.

Inductive Node : Type :=
| Element (e : Elt) (attrs : list Attr) (kids : list Node)
| TextNode (s : string).

Inductive RenderError : Type :=
| InvalidElementType (item_label : string)  (* <Icon/> with Icon undefined *)
| LinkWithoutHref (item_label : string).    (* <Link href={undefined}> *)

Definition el (t : Tag) := Element (ETag t).

(** The props of [Navbar]; [onSearchOpen] is the output [SearchOpened]. *)
Record NavbarProps : Type := mkNavbarProps { scrolled : bool }.

(** ** The desktop navigation (lines 57-184) *)

Definition nav_class (scrolled : bool) : string :=
  "fixed top-0 left-0 right-0 z-50 transition-all duration-300 " +:+
  (if scrolled then "bg-black" else "bg-gradient-to-b from-black/80 to-transparent").

Definition hamburger_attrs (st : NavState) : list Attr :=
  [AOnClick (hamburger_handler st);
   AClass "md:hidden p-2 hover:bg-white/10 rounded-lg transition-colors";
   AAriaLabel "菜单"].

Definition hamburger_button (st : NavState) : Node :=
  el TButton (hamburger_attrs st)
    [if isMobileMenuOpen st then Element (EIcon X) [AClass "w-6 h-6 text-white"] []
     else Element (EIcon Menu) [AClass "w-6 h-6 text-white"] []].

Definition logo_attrs : list Attr :=
  [AHref "/"; AOnClick (SetIsMobileMenuOpen false); AClass "flex items-center gap-1"].

Definition logo_link : Node :=
  Element ELink logo_attrs
    [el TImg [AClass "w-8 h-8 md:w-10 md:h-10"; AProp "src" "/logo.png";
              AProp "alt" "logo"] [];
     el TSpan [AClass ("text-red-600 text-xl md:text-2xl lg:text-3xl font-bold " +:+
                       "tracking-tight hover:text-red-500 transition-colors")]
       [TextNode "小飞机"]].

Definition svg_path (d : string) : Node :=
  el TPath [AProp "strokeLinecap" "round"; AProp "strokeLinejoin" "round";
            AProp "strokeWidth" "2"; AProp "d" d] [].

Definition chevron (rotated : bool) : Node :=
  el TSvg [AClass ("w-3 h-3 transition-transform duration-200 " +:+
                   (if rotated then "rotate-180" else ""));
           AProp "fill" "none"; AProp "viewBox" "0 0 24 24"; AProp "stroke" "currentColor"]
    [svg_path "M19 9l-7 7-7-7"].

Definition desktop_child_link (c : NavChild) : Node :=
  Element ELink [AKey (child_href c); AHref (child_href c);
                 AClass ("block px-4 py-2.5 text-sm text-gray-300 hover:text-white " +:+
                         "hover:bg-red-600/20 transition-colors")]
    [TextNode (child_label c)].

Definition dropdown_panel (cs : list NavChild) : Node :=
  el TDiv [AClass "absolute top-full left-0 pt-1"]
    [el TDiv [AClass ("py-2 bg-zinc-900 rounded-lg shadow-2xl border border-zinc-800 " +:+
                      "min-w-[140px] overflow-hidden")]
       (el TDiv [AClass "absolute top-1 left-0 right-0 h-0.5 bg-red-600"] []
        :: (desktop_child_link <$> cs))].

(** The wrapper of a desktop entry with children (lines 100-105). *)
Definition group_attrs (L : string) : list Attr :=
  [AKey L; AClass "relative group";
   AOnMouseEnter (SetOpenDropdown (Some L));
   AOnMouseLeave (SetOpenDropdown None)].

(** One entry of the desktop list (lines 99-152). *)
Definition render_desktop_item (st : NavState) (item : NavItem) : result RenderError Node :=
  match children item with
  | Some cs =>
      let isOpen := openDropdown st === Some (label item) in
      Ok (el TDiv (group_attrs (label item))
            (el TButton [AClass ("text-gray-400 hover:text-white transition-colors " +:+
                                 "text-sm font-medium flex items-center gap-1 py-2")]
               [TextNode (label item); chevron isOpen]
             :: (if isOpen then [dropdown_panel cs] else [])))
  | None =>
      match href item with
      | Some h =>
          Ok (Element ELink [AKey h; AHref h; ATarget (link_target item);
                             AClass "text-gray-400 hover:text-white transition-colors text-sm font-medium"]
                [TextNode (label item)])
      | None => Err (LinkWithoutHref (label item))
      end
  end.

Definition search_attrs : list Attr :=
  [AOnClick OnSearchOpen; AClass "p-2 hover:bg-white/10 rounded-full transition-colors";
   AAriaLabel "搜索"].

Definition search_button : Node :=
  el TButton search_attrs
    [el TSvg [AClass "w-5 h-5 md:w-6 md:h-6 text-white"; AProp "fill" "none";
              AProp "viewBox" "0 0 24 24"; AProp "stroke" "currentColor"]
       [svg_path "M21 21l-6-6m2-5a7 7 0 11-14 0 7 7 0 0114 0z"]].

Definition render_nav (items : list NavItem) (p : NavbarProps) (st : NavState)
    : result RenderError Node :=
  desk ← mapM (render_desktop_item st) (desktop_items items);
  Ok (el TNav [AClass (nav_class (scrolled p))]
        [el TDiv [AClass "px-4 md:px-12 py-3 md:py-4 flex items-center justify-between"]
           [el TDiv [AClass "flex items-center space-x-2 md:space-x-8"]
              [hamburger_button st; logo_link;
               el TDiv [AClass "hidden md:flex items-center space-x-6"] desk];
            el TDiv [AClass "flex items-center space-x-1 md:space-x-2"]
              [search_button; Element EHistoryPopup [] []]]]).

(** ** The mobile sidebar (lines 186-266) *)

Definition close_menu : Handler := SetIsMobileMenuOpen false.

Definition mobile_child_link (c : NavChild) : Node :=
  Element ELink [AKey (child_href c); AHref (child_href c); AOnClick close_menu;
                 AClass ("flex items-center space-x-3 px-4 py-2 pl-12 rounded-lg text-gray-300 " +:+
                         "hover:text-white hover:bg-white/10 transition-all duration-200")]
    [el TSpan [AClass "text-sm font-medium"] [TextNode (child_label c)]].

(** [const Icon = item.icon] then [<Icon .../>]: React throws on an
    undefined element type when it reaches it. *)
Definition render_icon (item : NavItem) (cls : string) : result RenderError Node :=
  match icon item with
  | Some i => Ok (Element (EIcon i) [AClass cls] [])
  | None => Err (InvalidElementType (label item))
  end.

(** One entry of the sidebar list (lines 218-256). A leaf's [<Link>] is
    rendered, and checks its [href], before its [<Icon>] child. *)
Definition render_mobile_item (item : NavItem) : result RenderError Node :=
  match children item with
  | Some cs =>
      ic ← render_icon item "w-5 h-5";
      Ok (el TDiv [AKey (label item); AClass "space-y-1"]
            (el TDiv [AClass "flex items-center space-x-3 px-4 py-3 text-gray-400"]
               [ic; el TSpan [AClass "text-base font-medium"] [TextNode (label item)]]
             :: (mobile_child_link <$> cs)))
  | None =>
      match href item with
      | Some h =>
          ic ← render_icon item "w-5 h-5 text-gray-400 group-hover:text-red-500 transition-colors";
          Ok (Element ELink [AKey h; AHref h; ATarget (link_target item); AOnClick close_menu;
                             AClass ("flex items-center space-x-3 px-4 py-3 rounded-lg text-gray-300 " +:+
                                     "hover:text-white hover:bg-white/10 transition-all duration-200 group")]
                [ic; el TSpan [AClass "text-base font-medium"] [TextNode (label item)]])
      | None => Err (LinkWithoutHref (label item))
      end
  end.

Definition overlay_class (isOpen : bool) : string :=
  "md:hidden fixed inset-0 z-[60] transition-opacity duration-300 " +:+
  (if isOpen then "opacity-100 pointer-events-auto" else "opacity-0 pointer-events-none").

Definition panel_class (isOpen : bool) : string :=
  "absolute top-0 left-0 h-full w-[280px] bg-gradient-to-b from-gray-900 to-black " +:+
  "shadow-2xl transform transition-transform duration-300 ease-out " +:+
  (if isOpen then "translate-x-0" else "-translate-x-full").

Definition backdrop_attrs : list Attr :=
  [AClass "absolute inset-0 bg-black/80 backdrop-blur-sm"; AOnClick close_menu].

Definition backdrop : Node := el TDiv backdrop_attrs [].

Definition sidebar_header : Node :=
  el TDiv [AClass "p-6 border-b border-gray-800"]
    [el TDiv [AClass "flex items-center gap-2"]
       [el TImg [AClass "w-10 h-10"; AProp "src" "/logo.png"; AProp "alt" "logo"] [];
        el TH2 [AClass "text-red-600 text-2xl font-bold tracking-tight"] [TextNode "壳儿"]]].

Definition sidebar_footer : Node :=
  el TDiv [AClass "absolute bottom-0 left-0 right-0 p-6 border-t border-gray-800"]
    [el TP [AClass "text-xs text-gray-500 text-center"] [TextNode "© 2026 壳儿 · 这就是个壳儿"]].

Definition render_sidebar (items : list NavItem) (st : NavState) : result RenderError Node :=
  ms ← mapM render_mobile_item items;
  Ok (el TDiv [AClass (overlay_class (isMobileMenuOpen st))]
        [backdrop;
         el TDiv [AClass (panel_class (isMobileMenuOpen st))]
           [sidebar_header; el TNav [AClass "p-4 space-y-2"] ms; sidebar_footer]]).

(** The fragment [<>...</>] the component returns. *)
Definition render_navbar (items : list NavItem) (p : NavbarProps) (st : NavState)
    : result RenderError (list Node) :=
  nav ← render_nav items p st;
  side ← render_sidebar items st;
  Ok [nav; side].

(** [Navbar] itself renders the fixed [navItems]. *)
Definition Navbar (p : NavbarProps) (st : NavState) : result RenderError (list Node) :=
  render_navbar navItems p st.

(** ** Traversal of the virtual DOM *)

(** Every element of a tree, in document order, with its attributes. *)
Fixpoint elements (n : Node) : list (Elt * list Attr) :=
  match n with
  | Element e attrs kids => (e, attrs) :: mjoin (elements <$> kids)
  | TextNode _ => []
  end.

Definition class_of (attrs : list Attr) : string :=
  default "" (head (omap (λ a, match a with AClass c => Some c | _ => None end) attrs)).
Definition key_of (attrs : list Attr) : option string :=
  head (omap (λ a, match a with AKey k => Some k | _ => None end) attrs).
Definition href_of (attrs : list Attr) : option string :=
  head (omap (λ a, match a with AHref h => Some h | _ => None end) attrs).
Definition target_of (attrs : list Attr) : option string :=
  mjoin (head (omap (λ a, match a with ATarget t => Some t | _ => None end) attrs)).
Definition onclick_of (attrs : list Attr) : option Handler :=
  head (omap (λ a, match a with AOnClick h => Some h | _ => None end) attrs).
Definition onmouseenter_of (attrs : list Attr) : option Handler :=
  head (omap (λ a, match a with AOnMouseEnter h => Some h | _ => None end) attrs).
Definition onmouseleave_of (attrs : list Attr) : option Handler :=
  head (omap (λ a, match a with AOnMouseLeave h => Some h | _ => None end) attrs).

(** The links of a tree, as [(href, target)]. *)
Definition link_info (ea : Elt * list Attr) : option (string * option string) :=
  match ea.1 with
  | ELink => (λ h, (h, target_of ea.2)) <$> href_of ea.2
  | _ => None
  end.
Definition links (n : Node) : list (string * option string) := omap link_info (elements n).

(** The keys of a list of siblings. *)
Definition node_key (n : Node) : option string :=
  match n with Element _ attrs _ => key_of attrs | TextNode _ => None end.
Definition sibling_keys (ns : list Node) : list (option string) := node_key <$> ns.

(** React's rule for keys: among the children of each element, the
    keyed ones have distinct keys (children without a key are static). *)
Fixpoint keys_ok (n : Node) : bool :=
  match n with
  | Element _ _ kids => bool_decide (NoDup (omap node_key kids)) && forallb keys_ok kids
  | TextNode _ => true
  end.

(** ** What the browser shows and lets the user reach *)

(** The [md] breakpoint of Tailwind splits the viewports in two. *)
Inductive Viewport : Type := Mobile | Desktop.

#[export] Instance Viewport_eq_dec : EqDecision Viewport.
Proof. solve_decision. Defined.

(** The class list of an element: its class string split on white space. *)
Definition class_tokens (attrs : list Attr) : list string := String.words (class_of attrs).

Definition has_class (c : string) (attrs : list Attr) : bool :=
  bool_decide (c ∈ class_tokens attrs).

(** [hidden] is [display: none]; [md:flex] overrides it and [md:hidden]
    sets it from the breakpoint up. *)
Definition displayed (vp : Viewport) (attrs : list Attr) : bool :=
  match vp with
  | Mobile => negb (has_class "hidden" attrs)
  | Desktop => negb (has_class "md:hidden" attrs) &&
               (negb (has_class "hidden" attrs) || has_class "md:flex" attrs)
  end.

(** [pointer-events] is inherited unless an element sets it. *)
Definition pointer_events (inherited : bool) (attrs : list Attr) : bool :=
  if has_class "pointer-events-none" attrs then false
  else if has_class "pointer-events-auto" attrs then true
  else inherited.

(** The elements a user can click or hover: displayed, with every
    ancestor displayed, and receiving pointer events. *)
Fixpoint reachable_elements (vp : Viewport) (pe : bool) (n : Node) : list (Elt * list Attr) :=
  match n with
  | Element e attrs kids =>
      if displayed vp attrs then
        let pe' := pointer_events pe attrs in
        (if pe' then [(e, attrs)] else []) ++ mjoin (reachable_elements vp pe' <$> kids)
      else []
  | TextNode _ => []
  end.

(** Stacking. A displayed [fixed inset-0] layer that receives pointer
    events covers the whole viewport, and takes every click away from the
    layers under it, those with a lower [z-index]. The two roots of the
    fragment are such fixed layers: the top bar ([z-50]) and the sidebar
    overlay ([z-[60]]). *)
Fixpoint digits_go (acc : nat) (s : string) : option nat :=
  match s with
  | "" => Some acc
  | String c s' => n ← Ascii.is_nat c; digits_go (10 * acc + n) s'
  end.

Definition parse_digits (s : string) : option nat :=
  match s with "" => None | _ => digits_go 0 s end.

(** The value of a [z-N] or [z-[N]] class. *)
Definition z_value (tok : string) : option nat :=
  match tok with
  | String "z" (String "-" (String "[" r)) =>
      match String.rev r with
      | String "]" inner => parse_digits (String.rev inner)
      | _ => None
      end
  | String "z" (String "-" r) => parse_digits r
  | _ => None
  end%char.

Definition z_index (attrs : list Attr) : nat :=
  foldr (λ t acc, max (default 0 (z_value t)) acc) 0 (class_tokens attrs).

Definition covers (vp : Viewport) (attrs : list Attr) : bool :=
  displayed vp attrs && pointer_events true attrs &&
  has_class "fixed" attrs && has_class "inset-0" attrs.

(** The [z-index] of the topmost covering root, if a root covers. *)
Definition cover_level (vp : Viewport) (ns : list Node) : option nat :=
  match omap (λ n, match n with
                   | Element _ a _ => if covers vp a then Some (z_index a) else None
                   | TextNode _ => None
                   end) ns with
  | [] => None
  | zs => Some (max_list zs)
  end.

Definition above_cover (vp : Viewport) (ns : list Node) (n : Node) : bool :=
  match cover_level vp ns, n with
  | None, _ => true
  | Some z, Element _ a _ => Nat.leb z (z_index a)
  | Some _, TextNode _ => false
  end.

Definition targets (vp : Viewport) (ns : list Node) : list (Elt * list Attr) :=
  mjoin (reachable_elements vp true <$> filter (λ n, above_cover vp ns n = true) ns).

(** Hovering. The pointer rests on one of the [target_paths] (or on none
    of the component's elements, [[]]). Moving it from [from] to [to]
    leaves the elements of [from] that are not ancestors shared with
    [to], innermost first, then enters those of [to], outermost first:
    the [mouseleave] and [mouseenter] events React dispatches to
    [onMouseLeave] and [onMouseEnter] (they do not bubble). *)
Definition hover_handlers (from to : list (Elt * list Attr)) : list Handler :=
  let '(l, e) := strip_common (reverse from) (reverse to) in
  (omap (λ ea, onmouseleave_of ea.2) (reverse l) ++ omap (λ ea, onmouseenter_of ea.2) e)%list.

(** Keyboard focus. A [<button>] and a link with an [href] are in the
    tab order while displayed, whatever their opacity, transform,
    pointer events or stacking: the keyboard reaches elements a pointer
    cannot. *)
Definition focusable (e : Elt) (attrs : list Attr) : bool :=
  match e with
  | ETag TButton => true
  | ELink => bool_decide (is_Some (href_of attrs))
  | _ => false
  end.

Fixpoint focusable_elements (vp : Viewport) (n : Node) : list (Elt * list Attr) :=
  match n with
  | Element e attrs kids =>
      if displayed vp attrs then
        (if focusable e attrs then [(e, attrs)] else []) ++
        mjoin (focusable_elements vp <$> kids)
      else []
  | TextNode _ => []
  end.

Definition focus_targets (vp : Viewport) (ns : list Node) : list (Elt * list Attr) :=
  mjoin (focusable_elements vp <$> ns).

(** Each focusable element with its ancestors, the element first: the
    path the click event of a keyboard activation bubbles through. *)
Fixpoint focus_paths_go (vp : Viewport) (anc : list (Elt * list Attr)) (n : Node)
    : list (list (Elt * list Attr)) :=
  match n with
  | Element e attrs kids =>
      if displayed vp attrs then
        let path := (e, attrs) :: anc in
        (if focusable e attrs then [path] else []) ++ mjoin (focus_paths_go vp path <$> kids)
      else []
  | TextNode _ => []
  end.

Definition focus_paths (vp : Viewport) (ns : list Node) : list (list (Elt * list Attr)) :=
  mjoin (focus_paths_go vp [] <$> ns).

(** Where a click can land, with the ancestors it bubbles through: for
    each element [reachable_elements] lists, the path from it up to the
    root, the element first. *)
Fixpoint reachable_paths (vp : Viewport) (pe : bool) (anc : list (Elt * list Attr))
    (n : Node) : list (list (Elt * list Attr)) :=
  match n with
  | Element e attrs kids =>
      if displayed vp attrs then
        let pe' := pointer_events pe attrs in
        let path := (e, attrs) :: anc in
        (if pe' then [path] else []) ++ mjoin (reachable_paths vp pe' path <$> kids)
      else []
  | TextNode _ => []
  end.

Definition target_paths (vp : Viewport) (ns : list Node) : list (list (Elt * list Attr)) :=
  mjoin (reachable_paths vp true [] <$> filter (λ n, above_cover vp ns n = true) ns).

(** ** The render depends on [openDropdown] only through [===] *)

(** The labels of the entries with children: the only values the render
    compares [openDropdown] with (line 110 and line 125). *)
Definition group_labels (items : list NavItem) : list string :=
  omap (λ item, match children item with Some _ => Some (label item) | None => None end) items.

Definition view_equiv (items : list NavItem) (st st' : NavState) : Prop :=
  isMobileMenuOpen st = isMobileMenuOpen st' ∧
  ∀ L, L ∈ group_labels items → (openDropdown st === Some L) = (openDropdown st' === Some L).

#[export] Instance view_equiv_equivalence items : Equivalence (view_equiv items).
Proof.
  split.
  - intros st. by split.
  - intros st st' [Hm Hd]. split; [done|]. intros L HL. by rewrite Hd.
  - intros st1 st2 st3 [Hm1 Hd1] [Hm2 Hd2]. split; [congruence|].
    intros L HL. by rewrite Hd1, Hd2.
Qed.

Lemma elem_of_group_labels item items cs :
  item ∈ items → children item = Some cs → label item ∈ group_labels items.
Proof.
  intros Hin Hc. apply list_elem_of_omap. exists item. by rewrite Hc.
Qed.

Lemma render_desktop_item_equiv items st st' item :
  view_equiv items st st' → item ∈ items →
  render_desktop_item st item = render_desktop_item st' item.
Proof.
  intros [_ Hd] Hin. unfold render_desktop_item.
  destruct (children item) as [cs|] eqn:Hc; [|done].
  rewrite (Hd (label item)); [done|]. by eapply elem_of_group_labels.
Qed.

#[export] Instance render_navbar_proper items :
  Proper (eq ==> view_equiv items ==> eq) (render_navbar items).
Proof.
  intros p ? <- st st' Heq. unfold render_navbar, render_nav, render_sidebar.
  rewrite (mapM_result_ext (render_desktop_item st) (render_desktop_item st')).
  { destruct Heq as [Hm _]. unfold hamburger_button, hamburger_attrs, hamburger_handler.
    by rewrite Hm. }
  intros item Hin. eapply render_desktop_item_equiv; [done|].
  apply list_elem_of_filter in Hin. naive_solver.
Qed.

(** ** The error path of the render *)

Lemma render_mobile_item_ok item :
  is_ok (render_mobile_item item) = true ↔ item_wf item = true.
Proof.
  unfold render_mobile_item, render_icon, item_wf.
  destruct (children item), (href item), (icon item); simpl;
    rewrite ?andb_true_iff, ?bool_decide_eq_true; naive_solver.
Qed.

Lemma render_desktop_item_ok st item :
  item_wf item = true → is_ok (render_desktop_item st item) = true.
Proof.
  unfold render_desktop_item, item_wf. rewrite andb_true_iff.
  destruct (children item), (href item); simpl;
    rewrite ?bool_decide_eq_true; naive_solver.
Qed.

Lemma render_sidebar_ok items st :
  is_ok (render_sidebar items st) = forallb item_wf items.
Proof.
  unfold render_sidebar. rewrite is_ok_bind_ret, mapM_result_forallb.
  apply forallb_pointwise. intros item. apply eq_bool_prop_intro.
  rewrite !Is_true_true. apply render_mobile_item_ok.
Qed.

Lemma render_nav_ok items p st :
  forallb item_wf items = true → is_ok (render_nav items p st) = true.
Proof.
  intros Hwf. unfold render_nav. rewrite is_ok_bind_ret, mapM_result_forallb.
  apply forallb_forall. intros item Hin%list_elem_of_In.
  apply render_desktop_item_ok. apply forallb_forall with (x := item) in Hwf; [done|].
  apply list_elem_of_In. apply list_elem_of_filter in Hin. naive_solver.
Qed.

(** ** Keys and links of the rendered lists *)

Lemma render_desktop_item_key st item n :
  render_desktop_item st item = Ok n → node_key n = item_key item.
Proof.
  unfold render_desktop_item, item_key.
  destruct (children item), (href item); intros; simplify_eq; done.
Qed.

Lemma render_mobile_item_key item n :
  render_mobile_item item = Ok n → node_key n = item_key item.
Proof.
  unfold render_mobile_item, render_icon, item_key.
  destruct (children item), (href item), (icon item); intros; simplify_eq/=; done.
Qed.

Lemma links_children (f : NavChild → Node) (cs : list NavChild) :
  (∀ c, links (f c) = [(child_href c, None)]) →
  omap link_info (mjoin (elements <$> (f <$> cs))) = (λ c, (child_href c, None)) <$> cs.
Proof.
  intros Hf. rewrite omap_mjoin. induction cs as [|c cs IH]; [done|].
  rewrite !fmap_cons. cbn [mjoin list_join]. unfold links in Hf. rewrite Hf.
  f_equal. exact IH.
Qed.

(** A sidebar element that is a link closes the menu when clicked. *)
Definition closes_menu (ea : Elt * list Attr) : Prop :=
  ea.1 = ELink → onclick_of ea.2 = Some close_menu.

(** Prove [Forall P (elements n)] for a rendered tree by walking it. *)
Ltac walk_elements :=
  repeat first
    [ apply Forall_nil_2
    | apply Forall_cons; split; [simpl; intros; first [done | congruence]|]
    | rewrite Forall_mjoin_fmap, Forall_fmap; apply Forall_forall; intros ? _
    | progress cbn [elements fmap list_fmap mjoin list_join app] ].

Lemma mobile_item_links_close item n :
  render_mobile_item item = Ok n → Forall closes_menu (elements n).
Proof.
  unfold render_mobile_item, render_icon, closes_menu.
  destruct (children item) as [cs|], (href item), (icon item); intros Hr; simplify_eq/=;
    walk_elements.
Qed.

(** ** The render of [Navbar] *)

(** C9. The render throws exactly when some entry of the configuration
    is not well formed: an entry without an icon ([<Icon/>] with [Icon]
    undefined, line 224 or 252) or a leaf without [href] ([item.href!],
    lines 146 and 247). *)
Theorem render_navbar_ok_iff items p st :
  is_ok (render_navbar items p st) = forallb item_wf items.
Proof.
  unfold render_navbar. destruct (render_nav items p st) eqn:Hn; simpl.
  - rewrite is_ok_bind_ret. apply render_sidebar_ok.
  - destruct (forallb item_wf items) eqn:Hw; [|done].
    apply (render_nav_ok _ p st) in Hw. by rewrite Hn in Hw.
Qed.

(** The states the render of [navItems] cannot tell apart collapse to
    four: menu open or not, the "短剧" dropdown open or not. *)
Definition canon (st : NavState) : NavState :=
  mkNavState (isMobileMenuOpen st)
             (if openDropdown st === Some "短剧" then Some "短剧" else None).

Lemma canon_view_equiv st : view_equiv navItems st (canon st).
Proof.
  split; [done|]. intros L HL.
  assert (L = "短剧") as -> by (vm_compute in HL; set_solver).
  unfold canon, js_strict_eq; simpl. by case_bool_decide.
Qed.

Lemma Navbar_canon p st : Navbar p st = Navbar p (canon st).
Proof. unfold Navbar. apply render_navbar_proper; [done|apply canon_view_equiv]. Qed.

(** Split a statement about [Navbar p st] into the eight closed cases. *)
Ltac navbar_cases p st :=
  rewrite Navbar_canon; unfold canon;
  destruct (isMobileMenuOpen st), (openDropdown st === Some "短剧"), p as [[]].

(** C10. [Navbar] renders, for every prop and state, the fragment of the
    top bar and the sidebar: the configuration never makes it throw. *)
Theorem Navbar_renders p st : ∃ nav side, Navbar p st = Ok [nav; side].
Proof. navbar_cases p st; eexists _, _; reflexivity. Qed.

(** The keys React sees on the desktop list are the keys of the entries
    the filter of line 98 keeps, in order: distinct keys in the
    configuration give distinct sibling keys. *)
Theorem desktop_keys_unique items st desk :
  NoDup (item_key <$> items) →
  mapM (render_desktop_item st) (desktop_items items) = Ok desk →
  NoDup (sibling_keys desk).
Proof.
  intros Hnd Hr%mapM_result_Ok. unfold sibling_keys.
  erewrite Forall2_result_fmap; [|exact Hr|apply render_desktop_item_key].
  unfold desktop_items. auto with navbar.
Qed.

Lemma mobile_keys_unique items ms :
  NoDup (item_key <$> items) → mapM render_mobile_item items = Ok ms →
  NoDup (sibling_keys ms).
Proof.
  intros Hnd Hr%mapM_result_Ok. unfold sibling_keys.
  by erewrite Forall2_result_fmap; [|exact Hr|apply render_mobile_item_key].
Qed.

(** The children of each entry have distinct [href]s. *)
Definition children_keys_unique (item : NavItem) : Prop :=
  match children item with Some cs => NoDup (child_href <$> cs) | None => True end.

#[export] Instance children_keys_unique_dec item : Decision (children_keys_unique item).
Proof. unfold children_keys_unique. destruct (children item); apply _. Defined.

Lemma keys_ok_Element e a kids :
  keys_ok (Element e a kids) = true ↔
  NoDup (omap node_key kids) ∧ Forall (λ k, keys_ok k = true) kids.
Proof.
  simpl. rewrite andb_true_iff, bool_decide_eq_true, forallb_forall, Forall_forall.
  by setoid_rewrite list_elem_of_In.
Qed.

Lemma NoDup_fmap_omap {A B} (f : A → option B) (l : list A) :
  NoDup (f <$> l) → NoDup (omap f l).
Proof.
  induction l as [|x l IH]; [constructor|]. rewrite fmap_cons, NoDup_cons.
  intros [Hx Hl]. simpl. destruct (f x) as [y|] eqn:Hf; [|by apply IH].
  constructor; [|by apply IH]. intros Hy. apply Hx.
  apply list_elem_of_omap in Hy as (z & Hz & Hfz). rewrite <-Hfz. by apply list_elem_of_fmap_2.
Qed.

(** A list rendered by [cs.map(c => <Link key={c.href} ...>)]. *)
Lemma child_links_nodup (f : NavChild → Node) (cs : list NavChild) :
  NoDup (child_href <$> cs) → (∀ c, node_key (f c) = Some (child_href c)) →
  NoDup (omap node_key (f <$> cs)).
Proof.
  intros Hnd Hf. assert (Heq : omap node_key (f <$> cs) = child_href <$> cs).
  { clear Hnd. induction cs as [|c cs IH]; [done|]. csimpl. by rewrite Hf, IH. }
  by rewrite Heq.
Qed.

Lemma child_links_keys_ok (f : NavChild → Node) (cs : list NavChild) :
  (∀ c, keys_ok (f c) = true) → Forall (λ k, keys_ok k = true) (f <$> cs).
Proof. intros Hf. apply Forall_fmap, Forall_forall. intros c _. apply Hf. Qed.

(** Descend through a rendered tree: split each element's condition,
    compute the keys of its static children, and discharge the lists
    rendered from the configuration's children. *)
Ltac keys_solve :=
  repeat match goal with
  | |- keys_ok (TextNode _) = true => reflexivity
  | |- keys_ok _ = true => apply keys_ok_Element; split
  | |- NoDup (omap node_key (_ <$> _)) =>
      apply child_links_nodup; [assumption|intros; reflexivity]
  | |- Forall _ (_ <$> _) => apply child_links_keys_ok; intros; reflexivity
  | |- Forall _ (_ :: _) => apply Forall_cons; split
  | |- Forall _ [] => constructor
  | |- NoDup (omap node_key _) =>
      progress cbn [omap list_omap node_key key_of head el dropdown_panel hamburger_button chevron svg_path
                    logo_link search_button backdrop sidebar_header sidebar_footer
                    hamburger_attrs logo_attrs search_attrs backdrop_attrs]
  | |- NoDup [] => constructor
  | H : NoDup (sibling_keys ?l) |- NoDup (omap node_key ?l) => by apply NoDup_fmap_omap
  | H : Forall _ ?l |- Forall _ ?l => exact H
  end.

Lemma render_desktop_item_keys_ok st item n :
  children_keys_unique item → render_desktop_item st item = Ok n → keys_ok n = true.
Proof.
  unfold children_keys_unique, render_desktop_item.
  destruct (children item) as [cs|], (href item); intros Hcs; try done; intros [= <-];
    try destruct (_ === _); keys_solve.
Qed.

Lemma render_mobile_item_keys_ok item n :
  children_keys_unique item → render_mobile_item item = Ok n → keys_ok n = true.
Proof.
  unfold children_keys_unique, render_mobile_item, render_icon.
  destruct (children item) as [cs|], (href item), (icon item); intros Hcs; try done;
    intros [= <-]; keys_solve.
Qed.

(** C15. React's key rule holds in the whole tree the render produces,
    for every configuration whose entries have distinct keys and whose
    entries' children have distinct [href]s: in each list of siblings,
    the desktop entries (line 99), a dropdown's links (line 132), the
    sidebar entries (line 218) and a group's links (line 231), no two
    keyed children share a key. *)
Theorem render_navbar_keys_ok items p st ns :
  NoDup (item_key <$> items) → Forall children_keys_unique items →
  render_navbar items p st = Ok ns → Forall (λ n, keys_ok n = true) ns.
Proof.
  intros Hnd Hcs. unfold render_navbar, render_nav, render_sidebar.
  destruct (mapM (render_desktop_item st) _) as [desk|] eqn:Hd; [|done]. simpl.
  destruct (mapM render_mobile_item items) as [ms|] eqn:Hm; [|done]. simpl. intros [= <-].
  pose proof (desktop_keys_unique _ _ _ Hnd Hd) as Hdk.
  pose proof (mobile_keys_unique _ _ Hnd Hm) as Hmk.
  assert (Hdok : Forall (λ n, keys_ok n = true) desk).
  { apply (mapM_result_Forall _ _ _ _ Hd). intros x y Hx. apply render_desktop_item_keys_ok.
    apply list_elem_of_filter in Hx as [_ Hx]. by eapply Forall_forall in Hcs. }
  assert (Hmok : Forall (λ n, keys_ok n = true) ms).
  { apply (mapM_result_Forall _ _ _ _ Hm). intros x y Hx. apply render_mobile_item_keys_ok.
    by eapply Forall_forall in Hcs. }
  unfold hamburger_button. destruct (isMobileMenuOpen st); keys_solve.
Qed.

(** C14. A desktop entry with children shows its children's links exactly
    when [openDropdown === item.label] (line 125), each as a plain link
    without [target], and no link otherwise. *)
Theorem desktop_dropdown_links st item cs :
  children item = Some cs →
  ∃ n, render_desktop_item st item = Ok n ∧
       links n = if openDropdown st === Some (label item)
                 then (λ c, (child_href c, None)) <$> cs else [].
Proof.
  intros Hc. unfold render_desktop_item. rewrite Hc. eexists; split; [done|].
  destruct (_ === _); unfold links; simpl; [|done].
  rewrite !app_nil_r. by apply links_children.
Qed.

(** C17 (finding). The wrapper the render gives an entry with children
    carries [onMouseLeave={() => setOpenDropdown(null)}] (line 104): the
    pointer leaving it clears [openDropdown] whatever it holds. With the
    dropdown of another entry [L'] open, leaving this entry closes [L'],
    where the specification's pointer-leave of [item.label] clears the
    dropdown only "if it currently matches" and keeps [L'] open. *)
Theorem leave_clears_any_dropdown st item cs L' :
  children item = Some cs → openDropdown st = Some L' → L' ≠ label item →
  ∃ attrs kids, render_desktop_item st item = Ok (Element (ETag TDiv) attrs kids) ∧
    openDropdown (apply_opt (onmouseleave_of attrs) st) = None ∧
    Spec.dropdown_step (Spec.PointerLeave (label item)) (openDropdown st) = Some L'.
Proof.
  intros Hc Ho Hne. unfold render_desktop_item. rewrite Hc.
  eexists _, _. split_and!; [done|done|]. rewrite Ho. simpl. unfold js_strict_eq.
  rewrite bool_decide_false; [done|congruence].
Qed.

(** ** The links of the render, against a reference

    What a reader of the configuration expects the two lists to link to,
    written without the tree. *)
Definition child_links (cs : list NavChild) : list (string * option string) :=
  (λ c, (child_href c, None)) <$> cs.
Definition leaf_links (item : NavItem) : list (string * option string) :=
  match href item with Some h => [(h, link_target item)] | None => [] end.
Definition desktop_item_links (st : NavState) (item : NavItem) : list (string * option string) :=
  match children item with
  | Some cs => if openDropdown st === Some (label item) then child_links cs else []
  | None => leaf_links item
  end.
Definition mobile_item_links (item : NavItem) : list (string * option string) :=
  match children item with Some cs => child_links cs | None => leaf_links item end.

Lemma render_desktop_item_links st item n :
  render_desktop_item st item = Ok n → links n = desktop_item_links st item.
Proof.
  unfold render_desktop_item, desktop_item_links, leaf_links.
  destruct (children item) as [cs|], (href item); intros; simplify_eq; try done.
  all: destruct (_ === _); unfold links; simpl; [|done].
  all: rewrite !app_nil_r; by apply links_children.
Qed.

Lemma render_mobile_item_links item n :
  render_mobile_item item = Ok n → links n = mobile_item_links item.
Proof.
  unfold render_mobile_item, mobile_item_links, leaf_links, render_icon.
  destruct (children item) as [cs|], (href item), (icon item); intros; simplify_eq/=; try done.
  all: unfold links; simpl; by apply links_children.
Qed.

Lemma links_Element e a kids :
  links (Element e a kids) = (default [] ((λ x, [x]) <$> link_info (e, a)) ++ mjoin (links <$> kids))%list.
Proof.
  unfold links. simpl. rewrite omap_mjoin, <-list_fmap_compose.
  by destruct (link_info (e, a)).
Qed.

Lemma links_mapM (f : NavItem → result RenderError Node) g items ns :
  mapM f items = Ok ns → (∀ it n, f it = Ok n → links n = g it) →
  mjoin (links <$> ns) = mjoin (g <$> items).
Proof. intros Hk%mapM_result_Ok Hg. f_equal. exact (Forall2_result_fmap _ links _ _ _ Hk Hg). Qed.

Lemma links_mapM_elements (f : NavItem → result RenderError Node) g items ns :
  mapM f items = Ok ns → (∀ it n, f it = Ok n → links n = g it) →
  omap link_info (mjoin (elements <$> ns)) = mjoin (g <$> items).
Proof.
  intros Hk Hg. rewrite omap_mjoin, <-list_fmap_compose. exact (links_mapM f g items ns Hk Hg).
Qed.

(** C24. The links of the rendered tree, for every configuration, props
    and state, are those of a reference read off the configuration: the
    top bar has the logo's [/] and, for each entry the filter of line 98
    keeps, its leaf link or, while its dropdown is open, its children's;
    the sidebar has every entry's leaf link or children's links, in
    order. *)
Theorem render_navbar_links items p st nav side :
  render_navbar items p st = Ok [nav; side] →
  links nav = ("/", None) :: mjoin (desktop_item_links st <$> desktop_items items) ∧
  links side = mjoin (mobile_item_links <$> items).
Proof.
  unfold render_navbar, render_nav, render_sidebar.
  destruct (mapM (render_desktop_item st) _) as [desk|] eqn:Hd; [|done]. simpl.
  destruct (mapM render_mobile_item items) as [ms|] eqn:Hm; [|done]. simpl. intros [= <- <-].
  unfold el, hamburger_button, logo_link, search_button, backdrop, sidebar_header, sidebar_footer, svg_path.
  destruct (isMobileMenuOpen st); repeat (first [rewrite links_Element | progress csimpl]);
    rewrite ?app_nil_r, ?omap_app, (links_mapM_elements _ _ _ _ Hd (render_desktop_item_links st)),
      (links_mapM _ _ _ _ Hm render_mobile_item_links); simpl; by rewrite ?app_nil_r.
Qed.


(** ** At most one dropdown

    The dropdown panel of a desktop entry (lines 124-137) is the element
    [panel_elt]; [panels n] counts them in a tree. *)
Definition panel_elt : Elt * list Attr := (ETag TDiv, [AClass "absolute top-full left-0 pt-1"]).
Definition panels (n : Node) : nat := length (filter (λ ea, ea = panel_elt) (elements n)).

(** An entry whose dropdown is open in state [st]. *)
Definition open_group (st : NavState) (item : NavItem) : Prop :=
  is_Some (children item) ∧ openDropdown st = Some (label item).

Lemma child_links_no_panel (cs : list NavChild) :
  filter (λ ea, ea = panel_elt) (mjoin (elements <$> (desktop_child_link <$> cs))) = [].
Proof.
  apply filter_nil_iff. intros x Hx ->. revert Hx. rewrite <-list_fmap_compose.
  intros (l & Hl & (c & -> & _)%list_elem_of_fmap)%list_elem_of_join.
  simpl in Hl. set_solver.
Qed.

Lemma render_desktop_item_panels st item n :
  render_desktop_item st item = Ok n →
  panels n = if bool_decide (is_Some (children item)) && (openDropdown st === Some (label item))
             then 1 else 0.
Proof.
  unfold render_desktop_item. destruct (children item) as [cs|], (href item); intros; simplify_eq/=; try done.
  all: destruct (_ === _); unfold panels; csimpl; try done.
  all: rewrite !app_nil_r, !filter_cons; repeat case_decide; simplify_eq;
    by rewrite child_links_no_panel.
Qed.

Lemma panels_mjoin (ns : list Node) :
  length (filter (λ ea, ea = panel_elt) (mjoin (elements <$> ns))) = sum_list (panels <$> ns).
Proof.
  induction ns as [|n ns IH]; [done|]. csimpl. by rewrite filter_app, length_app, IH.
Qed.

Lemma panels_Element e a kids :
  (e, a) ≠ panel_elt → panels (Element e a kids) = sum_list (panels <$> kids).
Proof.
  intros Hne. unfold panels at 1. simpl. rewrite filter_cons, decide_False by done.
  apply panels_mjoin.
Qed.


(** C29. At most one dropdown is open at a time (section 3 of the
    specification), for every configuration with distinct keys: the top
    bar renders one panel for each entry with children whose label is
    [openDropdown], and distinct keys leave at most one such entry. *)
Theorem at_most_one_dropdown items p st nav side :
  NoDup (item_key <$> items) → render_navbar items p st = Ok [nav; side] →
  panels nav = length (filter (open_group st) (desktop_items items)) ∧ (panels nav ≤ 1)%nat.
Proof.
  intros Hnd. unfold render_navbar, render_nav.
  destruct (mapM (render_desktop_item st) _) as [desk|] eqn:Hd; [|done]. simpl.
  destruct (render_sidebar items st); simpl; [|done]. intros [= <- _].
  assert (Hp : panels (el TNav [AClass (nav_class (scrolled p))]
        [el TDiv [AClass "px-4 md:px-12 py-3 md:py-4 flex items-center justify-between"]
           [el TDiv [AClass "flex items-center space-x-2 md:space-x-8"]
              [hamburger_button st; logo_link;
               el TDiv [AClass "hidden md:flex items-center space-x-6"] desk];
            el TDiv [AClass "flex items-center space-x-1 md:space-x-2"]
              [search_button; Element EHistoryPopup [] []]]]) = sum_list (panels <$> desk)).
  { unfold hamburger_button, logo_link, search_button, svg_path, el.
    destruct (isMobileMenuOpen st);
      repeat (rewrite panels_Element by (unfold panel_elt; intros [=]); csimpl); lia. }
  rewrite Hp. apply mapM_result_Ok in Hd.
  rewrite (Forall2_result_fmap _ panels (λ it, if bool_decide (open_group st it) then 1 else 0)
             _ _ Hd), sum_indicator.
  2:{ intros it n Hn. rewrite (render_desktop_item_panels _ _ _ Hn). unfold open_group.
      unfold js_strict_eq. destruct (children it); simpl; repeat case_bool_decide; naive_solver. }
  split; [done|]. etransitivity; [|apply (NoDup_filter_eq item_key (desktop_items items) (openDropdown st))].
  - apply length_filter_impl. intros it [[cs Hc] Ho]. unfold item_key. by rewrite Hc.
  - unfold desktop_items. auto with navbar.
Qed.

(** C11. The history entry ([mobileOnly: true]) is a link of the sidebar
    and never a link of the desktop bar, whatever the props and state. *)
Theorem history_only_on_mobile p st :
  ∃ nav side, Navbar p st = Ok [nav; side] ∧
    ("/history" ∉ fst <$> links nav) ∧ "/history" ∈ fst <$> links side.
Proof. navbar_cases p st; eexists _, _; (split; [reflexivity|nav_decide]). Qed.

(** C22 (finding). On a phone with the menu closed the sidebar is
    transparent, slid off-screen and ignores the pointer (lines 188-205),
    but it stays displayed: its links are in the tab order and can be
    activated from the keyboard, though none can be clicked. *)
Theorem closed_sidebar_links_focusable p st nav side :
  isMobileMenuOpen st = false → Navbar p st = Ok [nav; side] →
  Exists (λ ea, ea.1 = ELink) (elements side) ∧
  Forall (λ ea, ea.1 = ELink →
                ea ∈ focus_targets Mobile [nav; side] ∧ ea ∉ targets Mobile [nav; side])
         (elements side).
Proof.
  revert nav side. navbar_cases p st; intros nav side; first [discriminate|intros _ [= <- <-]];
    split; nav_decide.
Qed.

Definition github_url : string := "https://github.com/unilei/kerkerker".

(** C12. Of all the links [Navbar] renders, the ones opened in a new
    browsing context ([target="_blank"]) are exactly the Github entry's. *)
Theorem only_github_is_external p st nav side :
  Navbar p st = Ok [nav; side] →
  Forall (λ l, bool_decide (l.2 = Some "_blank") = bool_decide (l.1 = github_url))
         (links nav ++ links side).
Proof. navbar_cases p st; intros [= <- <-]; nav_decide. Qed.

(** Replace the class of the first node of a fragment. *)
Definition restyle_root (c : string) (ns : list Node) : list Node :=
  match ns with
  | Element e (AClass _ :: attrs) kids :: rest => Element e (AClass c :: attrs) kids :: rest
  | _ => ns
  end.

(** C13. The [scrolled] prop changes nothing but the class of the [<nav>]
    (lines 58-62), which carries [bg-black] exactly when [scrolled]. *)
Theorem scrolled_only_restyles items b st :
  render_navbar items (mkNavbarProps b) st =
    (render_navbar items (mkNavbarProps false) st ≫= λ ns, Ok (restyle_root (nav_class b) ns)) ∧
  has_class "bg-black" [AClass (nav_class b)] = b.
Proof.
  split; [|by destruct b; vm_compute].
  unfold render_navbar, render_nav.
  destruct (mapM (render_desktop_item st) _); simpl; [|done].
  by destruct (render_sidebar items st).
Qed.

(** ** Witnesses on the configuration of [Navbar.tsx] *)

Definition shorts_item : NavItem :=
  mkNavItem None "短剧" (Some Video) None None
    (Some [mkNavChild "/shorts" "短剧"; mkNavChild "/dailymotion" "短剧Motion"]).

Lemma closed_sidebar_links_focusable_witness :
  ∃ nav side, Navbar (mkNavbarProps false) initial_state = Ok [nav; side] ∧
    Exists (λ ea, ea.1 = ELink) (elements side) ∧
    Forall (λ ea, ea.1 = ELink →
                  ea ∈ focus_targets Mobile [nav; side] ∧ ea ∉ targets Mobile [nav; side])
           (elements side).
Proof.
  eexists _, _. split; [reflexivity|].
  apply (closed_sidebar_links_focusable (mkNavbarProps false) initial_state); reflexivity.
Defined.

Lemma render_navbar_links_witness :
  ∃ nav side, render_navbar navItems (mkNavbarProps false) (mkNavState false (Some "短剧")) =
                Ok [nav; side] ∧
    links nav = ("/", None) ::
      mjoin (desktop_item_links (mkNavState false (Some "短剧")) <$> desktop_items navItems) ∧
    links side = mjoin (mobile_item_links <$> navItems).
Proof.
  eexists _, _. split; [reflexivity|].
  apply (render_navbar_links navItems (mkNavbarProps false) (mkNavState false (Some "短剧")));
    reflexivity.
Defined.

Lemma at_most_one_dropdown_witness :
  ∃ nav side, render_navbar navItems (mkNavbarProps false) (mkNavState false (Some "短剧")) =
                Ok [nav; side] ∧
    panels nav = length (filter (open_group (mkNavState false (Some "短剧"))) (desktop_items navItems)) ∧
    (panels nav ≤ 1)%nat.
Proof.
  eexists _, _. split; [reflexivity|].
  eapply (at_most_one_dropdown navItems (mkNavbarProps false) (mkNavState false (Some "短剧")));
    [nav_decide|reflexivity].
Defined.

Lemma render_navbar_keys_ok_witness :
  ∃ ns, render_navbar navItems (mkNavbarProps true) (mkNavState true (Some "短剧")) = Ok ns ∧
        Forall (λ n, keys_ok n = true) ns.
Proof.
  eexists. split; [reflexivity|].
  apply (render_navbar_keys_ok navItems (mkNavbarProps true) (mkNavState true (Some "短剧")));
    [nav_decide|nav_decide|reflexivity].
Defined.

Lemma desktop_dropdown_links_witness :
  ∃ n, render_desktop_item (mkNavState false (Some "短剧")) shorts_item = Ok n ∧
       links n = [("/shorts", None); ("/dailymotion", None)].
Proof.
  destruct (desktop_dropdown_links (mkNavState false (Some "短剧")) shorts_item
              [mkNavChild "/shorts" "短剧"; mkNavChild "/dailymotion" "短剧Motion"])
    as (n & Hn & Hl); [reflexivity|].
  exists n. split; [exact Hn|]. rewrite Hl. reflexivity.
Defined.

(** A configuration with a second entry with children, "电影", whose
    dropdown is open while the pointer leaves "短剧". *)
Lemma leave_clears_any_dropdown_witness :
  ∃ attrs kids,
    render_desktop_item (mkNavState false (Some "电影")) shorts_item =
      Ok (Element (ETag TDiv) attrs kids) ∧
    openDropdown (apply_opt (onmouseleave_of attrs) (mkNavState false (Some "电影"))) = None ∧
    Spec.dropdown_step (Spec.PointerLeave (label shorts_item)) (Some "电影") = Some "电影".
Proof.
  apply (leave_clears_any_dropdown (mkNavState false (Some "电影")) shorts_item
           [mkNavChild "/shorts" "短剧"; mkNavChild "/dailymotion" "短剧Motion"] "电影");
    [reflexivity|reflexivity|discriminate].
Defined.

Lemma only_github_is_external_witness :
  ∃ nav side, Navbar (mkNavbarProps true) (mkNavState false (Some "短剧")) = Ok [nav; side] ∧
    Forall (λ l, bool_decide (l.2 = Some "_blank") = bool_decide (l.1 = github_url))
           (links nav ++ links side).
Proof.
  eexists _, _. split; [reflexivity|].
  eapply (only_github_is_external (mkNavbarProps true) (mkNavState false (Some "短剧"))).
  reflexivity.
Defined.
