(* ===== verification/Runtime.v ===== *)
(** * Runtime: a mounted [Navbar] instance and the events it receives

    The component as it runs in the page: its props and the viewport, the
    state of [NavState], the committed scroll-lock effect of [ScrollLock],
    the body's inline style, and the log of what it sent out ([Runtime]).
    A user event targets an element of the current render
    ([View.targets]): the element's handler runs, the state setter
    re-renders, the effect commits when [isMobileMenuOpen] changed, and a
    [<Link>] navigates after its [onClick]. Keyboard activations reach
    the elements of [View.focus_targets]; pointer moves run the
    [mouseleave]/[mouseenter] handlers of [View.hover_handlers]. The
    parent can re-render it with new props, the viewport can change, and
    the parent can unmount it, which runs the last cleanup ([step],
    [reachable], [run]). A click that lands inside an element and bubbles
    up through its ancestors is [dispatch_click].

    The file also holds the invariant every run keeps ([rt_inv]), the
    reduction of statements about every state to the canonical ones
    ([view_cases]), the facts about the concrete configuration decided by
    evaluation, and the lemmas on clicks, presses, pointer moves and
    bubbling that the theorems of [Navbar] are proved from. Everything is
    proved against the [StyleStore] interface, for any document. *)

From stdpp Require Import base list strings sets gmap.
From S2P Require Import Prelude NavConfig NavState ScrollLock View.

Section Runtime.
Context {D : Type} `{StyleStore D}.

Record Runtime : Type := mkRuntime {
  rt_props : NavbarProps;
  rt_viewport : Viewport;
  rt_state : NavState;
  rt_effect : option (EffectSlot D bool);  (* Some while mounted *)
  rt_doc : D;
  rt_out : list Output;
}.

(** First render and commit: [useState] initial values, then the effect
    runs with [isMobileMenuOpen = false]. *)
Definition mount (p : NavbarProps) (vp : Viewport) (d : D) : Runtime :=
  let '(slot, d') := effect_mount scroll_lock_effect (isMobileMenuOpen initial_state) d in
  mkRuntime p vp initial_state (Some slot) d' [].

(** The committed tree; [Navbar_renders] shows the render never throws. *)
Definition view (rt : Runtime) : list Node :=
  match Navbar (rt_props rt) (rt_state rt) with Ok ns => ns | Err _ => [] end.

Definition targets_of (rt : Runtime) : list (Elt * list Attr) :=
  targets (rt_viewport rt) (view rt).

Definition focus_of (rt : Runtime) : list (Elt * list Attr) :=
  focus_targets (rt_viewport rt) (view rt).

(** Where the pointer can rest: on an element and its ancestors, or
    outside the component. *)
Definition pointer_positions (rt : Runtime) : list (list (Elt * list Attr)) :=
  [] :: target_paths (rt_viewport rt) (view rt).

(** A state setter: React bails out when the value is unchanged;
    otherwise it re-renders and commits the effect with the new
    dependency. *)
Definition set_state (rt : Runtime) (st' : NavState) : Runtime :=
  if state_changed (rt_state rt) st' then
    match rt_effect rt with
    | Some slot =>
        let '(slot', d') :=
          effect_commit scroll_lock_effect slot (isMobileMenuOpen st') (rt_doc rt) in
        mkRuntime (rt_props rt) (rt_viewport rt) st' (Some slot') d' (rt_out rt)
    | None => rt
    end
  else rt.

Definition run_handler (rt : Runtime) (h : Handler) : Runtime :=
  let rt' := set_state rt (apply_handler h (rt_state rt)) in
  mkRuntime (rt_props rt') (rt_viewport rt') (rt_state rt') (rt_effect rt')
            (rt_doc rt') (rt_out rt' ++ handler_outputs h).

Definition run_opt (rt : Runtime) (oh : option Handler) : Runtime :=
  match oh with Some h => run_handler rt h | None => rt end.

Definition emit (rt : Runtime) (o : Output) : Runtime :=
  mkRuntime (rt_props rt) (rt_viewport rt) (rt_state rt) (rt_effect rt)
            (rt_doc rt) (rt_out rt ++ [o]).

(** A click: the element's [onClick], then a [<Link>]'s navigation,
    left to the browser (a new context) when [target="_blank"]. *)
Definition click (rt : Runtime) (ea : Elt * list Attr) : Runtime :=
  let rt1 := run_opt rt (onclick_of ea.2) in
  match ea.1, href_of ea.2 with
  | ELink, Some h =>
      emit rt1 (if decide (target_of ea.2 = Some "_blank") then OpenedInNewContext h
                else Navigated h)
  | _, _ => rt1
  end.

(** The DOM's dispatch of a click that lands on the first element of
    [path] (the element and its ancestors, innermost first): the
    [onClick] of each, in bubbling order, then the navigation of the
    nearest enclosing link. *)
Definition dispatch_click (rt : Runtime) (path : list (Elt * list Attr)) : Runtime :=
  let rt1 := foldl (λ r ea, run_opt r (onclick_of ea.2)) rt path in
  match head (omap link_info path) with
  | Some (h, t) => emit rt1 (if decide (t = Some "_blank") then OpenedInNewContext h
                             else Navigated h)
  | None => rt1
  end.

Inductive UserEvent : Type :=
| Click (ea : Elt * list Attr)
| Activate (ea : Elt * list Attr)   (* Enter on the focused element, or Space on a button *)
| MouseEnter (ea : Elt * list Attr)
| MouseLeave (ea : Elt * list Attr)
| PointerMove (from to : list (Elt * list Attr))
| Resize (vp : Viewport)
| Rerender (p : NavbarProps)
| Unmount.

Definition with_target (rt : Runtime) (ea : Elt * list Attr) (k : Runtime) : option Runtime :=
  if decide (ea ∈ targets_of rt) then Some k else None.

(** One event; [None] when the event cannot happen (the element is not
    reachable, or the instance is unmounted). *)
Definition step (ev : UserEvent) (rt : Runtime) : option Runtime :=
  match rt_effect rt with
  | None => None
  | Some slot =>
      match ev with
      | Click ea => with_target rt ea (click rt ea)
      | Activate ea => if decide (ea ∈ focus_of rt) then Some (click rt ea) else None
      | MouseEnter ea => with_target rt ea (run_opt rt (onmouseenter_of ea.2))
      | MouseLeave ea => with_target rt ea (run_opt rt (onmouseleave_of ea.2))
      | PointerMove from to =>
          if decide (from ∈ pointer_positions rt ∧ to ∈ pointer_positions rt)
          then Some (foldl run_handler rt (hover_handlers from to)) else None
      | Resize vp => Some (mkRuntime (rt_props rt) vp (rt_state rt) (rt_effect rt)
                                     (rt_doc rt) (rt_out rt))
      | Rerender p => Some (mkRuntime p (rt_viewport rt) (rt_state rt) (rt_effect rt)
                                      (rt_doc rt) (rt_out rt))
      | Unmount => Some (mkRuntime (rt_props rt) (rt_viewport rt) (rt_state rt) None
                                   (effect_unmount slot (rt_doc rt)) (rt_out rt))
      end
  end.

(** Runs of the instance from its mount. *)
Inductive reachable : Runtime → Prop :=
| reach_mount p vp d : reachable (mount p vp d)
| reach_step rt ev rt' : reachable rt → step ev rt = Some rt' → reachable rt'.

(** A sequence of events, stopping at the first that cannot happen. *)
Fixpoint run (evs : list UserEvent) (rt : Runtime) : option Runtime :=
  match evs with
  | [] => Some rt
  | ev :: evs' => rt' ← step ev rt; run evs' rt'
  end.
End Runtime.

Arguments Runtime D : clear implicits.

(** ** The scroll lock follows the menu *)

Section RuntimeProofs.
Context {D : Type} `{StyleStore D}.
Implicit Types rt : Runtime D.

(** While mounted, React's committed effect is the scroll lock with the
    current [isMobileMenuOpen] as dependency and the body shows its
    value; after unmount the body's overflow is ["unset"]. *)
Definition rt_inv rt : Prop :=
  match rt_effect rt with
  | Some slot => scroll_slot_ok slot (rt_doc rt) ∧
                 slot_deps slot = isMobileMenuOpen (rt_state rt)
  | None => style_get (rt_doc rt) "overflow" = "unset"
  end.

Lemma mount_inv p vp d : rt_inv (mount p vp d).
Proof.
  unfold mount. generalize (scroll_mount_ok (isMobileMenuOpen initial_state) d).
  destruct (effect_mount _ _ _) as [slot d']; simpl. intros [Hd Hok]. by split.
Qed.

Lemma set_state_inv rt st' : rt_inv rt → rt_inv (set_state rt st').
Proof.
  unfold set_state. destruct (state_changed _ _); [|done].
  unfold rt_inv. destruct (rt_effect rt) as [slot|] eqn:He; [|by rewrite He]. intros [Hok _].
  generalize (scroll_commit_ok slot (isMobileMenuOpen st') (rt_doc rt) Hok).
  destruct (effect_commit _ _ _ _) as [slot' d']; simpl. intros [Hd Hok']. by split.
Qed.

(** The fields a state update leaves alone. *)
Lemma set_state_frame rt st' :
  rt_props (set_state rt st') = rt_props rt ∧
  rt_viewport (set_state rt st') = rt_viewport rt ∧
  rt_out (set_state rt st') = rt_out rt ∧
  (rt_effect (set_state rt st') = None ↔ rt_effect rt = None).
Proof.
  unfold set_state. destruct (state_changed _ _); [|done].
  destruct (rt_effect rt) as [slot|] eqn:He; [|by rewrite He].
  destruct (effect_commit _ _ _ _); simpl. naive_solver.
Qed.

(** An update that keeps [isMobileMenuOpen] skips the effect: the body
    is untouched. *)
Lemma set_state_keeps_doc rt st' :
  rt_inv rt → isMobileMenuOpen st' = isMobileMenuOpen (rt_state rt) →
  rt_doc (set_state rt st') = rt_doc rt.
Proof.
  unfold set_state, rt_inv. destruct (state_changed _ _); [|done].
  destruct (rt_effect rt) as [slot|]; [|done]. intros [_ Hd] Hm.
  unfold effect_commit. rewrite decide_True by congruence. done.
Qed.

Lemma set_state_state rt st' :
  is_Some (rt_effect rt) → rt_state (set_state rt st') = st'.
Proof.
  intros [slot Hs]. unfold set_state, state_changed. rewrite Hs.
  case_bool_decide as Hne; [by destruct (effect_commit _ _ _ _)|].
  done.
Qed.

Lemma run_handler_inv rt h : rt_inv rt → rt_inv (run_handler rt h).
Proof. intros Hinv. apply (set_state_inv rt (apply_handler h (rt_state rt))) in Hinv. done. Qed.

Lemma run_opt_inv rt oh : rt_inv rt → rt_inv (run_opt rt oh).
Proof. destruct oh; [apply run_handler_inv|done]. Qed.

Lemma run_handlers_inv rt hs : rt_inv rt → rt_inv (foldl run_handler rt hs).
Proof. revert rt. induction hs as [|h hs IH]; intros rt Hinv; [done|]. by apply IH, run_handler_inv. Qed.

Lemma click_inv rt ea : rt_inv rt → rt_inv (click rt ea).
Proof.
  intros Hinv%(run_opt_inv _ (onclick_of ea.2)). unfold click.
  by destruct ea.1, (href_of ea.2).
Qed.

Lemma with_target_Some rt ea k rt' :
  with_target rt ea k = Some rt' → ea ∈ targets_of rt ∧ rt' = k.
Proof. unfold with_target. case_decide; naive_solver. Qed.

Lemma step_inv ev rt rt' : rt_inv rt → step ev rt = Some rt' → rt_inv rt'.
Proof.
  intros Hinv. unfold step. destruct (rt_effect rt) as [slot|] eqn:He; [|done].
  destruct ev; intros Hs;
    try (apply with_target_Some in Hs as [_ ->]);
    try (case_decide; [|done]);
    try (injection Hs as <-); unfold rt_inv in *; simpl; rewrite ?He in Hinv.
  - by apply click_inv; unfold rt_inv; rewrite He.
  - by apply click_inv; unfold rt_inv; rewrite He.
  - by apply run_opt_inv; unfold rt_inv; rewrite He.
  - by apply run_opt_inv; unfold rt_inv; rewrite He.
  - by apply run_handlers_inv; unfold rt_inv; rewrite He.
  - done.
  - done.
  - by apply scroll_unmount_unset, Hinv.
Qed.

#[local] Hint Resolve mount_inv step_inv : navbar.

Lemma reachable_inv rt : reachable rt → rt_inv rt.
Proof. induction 1; eauto with navbar. Qed.
End RuntimeProofs.

Definition view_at (p : NavbarProps) (st : NavState) : list Node :=
  match Navbar p st with Ok ns => ns | Err _ => [] end.

Lemma view_at_canon p st : view_at p st = view_at p (canon st).
Proof. unfold view_at. by rewrite Navbar_canon. Qed.

(** Split a statement about what a user can reach into its closed cases. *)
Ltac view_cases p st :=
  rewrite view_at_canon; unfold canon;
  destruct (isMobileMenuOpen st), (openDropdown st === Some "短剧"), p as [[]].

Section EventLemmas.
Context {D : Type} `{StyleStore D}.
Implicit Types rt : Runtime D.

Lemma targets_of_view_at rt :
  targets_of rt = targets (rt_viewport rt) (view_at (rt_props rt) (rt_state rt)).
Proof. done. Qed.

Lemma step_click rt ea :
  is_Some (rt_effect rt) → ea ∈ targets_of rt → step (Click ea) rt = Some (click rt ea).
Proof.
  intros [slot Hs] Hin. unfold step, with_target. rewrite Hs. by rewrite decide_True.
Qed.

Lemma step_activate rt ea :
  is_Some (rt_effect rt) → ea ∈ focus_of rt → step (Activate ea) rt = Some (click rt ea).
Proof. intros [slot Hs] Hin. unfold step. rewrite Hs. by rewrite decide_True. Qed.

Lemma step_click_unreachable rt ea : ea ∉ targets_of rt → step (Click ea) rt = None.
Proof. intros Hin. unfold step, with_target. destruct (rt_effect rt); [|done]. by rewrite decide_False. Qed.

Lemma step_hover rt ea :
  is_Some (rt_effect rt) → ea ∈ targets_of rt →
  step (MouseEnter ea) rt = Some (run_opt rt (onmouseenter_of ea.2)) ∧
  step (MouseLeave ea) rt = Some (run_opt rt (onmouseleave_of ea.2)).
Proof.
  intros [slot Hs] Hin. unfold step, with_target. rewrite Hs, !decide_True by done.
  by split.
Qed.

Lemma run_handler_fields rt h :
  is_Some (rt_effect rt) →
  rt_state (run_handler rt h) = apply_handler h (rt_state rt) ∧
  is_Some (rt_effect (run_handler rt h)) ∧
  rt_props (run_handler rt h) = rt_props rt ∧
  rt_viewport (run_handler rt h) = rt_viewport rt ∧
  rt_out (run_handler rt h) = (rt_out rt ++ handler_outputs h)%list.
Proof.
  intros Hs. unfold run_handler; simpl.
  destruct (set_state_frame rt (apply_handler h (rt_state rt))) as (-> & -> & -> & He).
  split_and!; [by apply set_state_state| |done..].
  destruct (rt_effect (set_state _ _)) eqn:E; [by eexists|].
  destruct Hs as [? Hs]. rewrite Hs in He. naive_solver.
Qed.

Lemma inv_overflow rt :
  rt_inv rt → is_Some (rt_effect rt) →
  style_get (rt_doc rt) "overflow" = overflow_value (isMobileMenuOpen (rt_state rt)).
Proof.
  intros Hinv [slot Hs]. unfold rt_inv in Hinv. rewrite Hs in Hinv.
  destruct Hinv as [[_ Hd] <-]. done.
Qed.
End EventLemmas.

(** ** What each viewport lets the user reach *)

(** The values a reachable handler can give [openDropdown]. *)
Definition dropdown_ok (oh : option Handler) : Prop :=
  match oh with Some (SetOpenDropdown o) => o = None ∨ o = Some "短剧" | _ => True end.

#[export] Instance dropdown_ok_dec oh : Decision (dropdown_ok oh).
Proof. destruct oh as [[]|]; simpl; apply _. Defined.

Definition handlers_ok (ea : Elt * list Attr) : Prop :=
  dropdown_ok (onclick_of ea.2) ∧ dropdown_ok (onmouseenter_of ea.2) ∧
  dropdown_ok (onmouseleave_of ea.2).

(** Whether an element's click writes [isMobileMenuOpen]. *)
Definition sets_menu (ea : Elt * list Attr) : bool :=
  match onclick_of ea.2 with Some (SetIsMobileMenuOpen _) => true | _ => false end.

(** What a click on an element sends out of the component: its
    [onClick]'s outputs, then a [<Link>]'s navigation. *)
Definition click_outputs (ea : Elt * list Attr) : list Output :=
  (default [] (handler_outputs <$> onclick_of ea.2) ++
   match ea.1, href_of ea.2 with
   | ELink, Some h => [if decide (target_of ea.2 = Some "_blank") then OpenedInNewContext h
                       else Navigated h]
   | _, _ => []
   end)%list.

(** An element a click acts on: it has an [onClick] or is a link. *)
Definition actionable (ea : Elt * list Attr) : bool :=
  bool_decide (is_Some (onclick_of ea.2)) || bool_decide (is_Some (link_info ea)).

(** A path a click bubbles through acts on at most one element, and on
    one the model lets the user click. *)
Definition path_ok (ts : list (Elt * list Attr)) (path : list (Elt * list Attr)) : bool :=
  match filter (λ ea, actionable ea = true) path with
  | [] => true
  | [ea] => bool_decide (ea ∈ ts)
  | _ => false
  end.

Lemma target_paths_ok vp p st :
  targets vp (view_at p st) = omap head (target_paths vp (view_at p st)) ∧
  Forall (λ path, path_ok (targets vp (view_at p st)) path = true)
         (target_paths vp (view_at p st)).
Proof. view_cases p st; destruct vp; split; nav_decide. Qed.

(** Whether a pointer position lies inside the "短剧" entry's wrapper,
    the one element with [onMouseEnter] and [onMouseLeave]. *)
Definition in_group (path : list (Elt * list Attr)) : bool :=
  bool_decide ((ETag TDiv, group_attrs "短剧") ∈ path).

(** The handler a pointer move runs: entering the wrapper opens the
    dropdown, leaving it closes it, moving within or outside it does
    nothing. *)
Definition hover_handler (from to : list (Elt * list Attr)) : option Handler :=
  if in_group to then (if in_group from then None else Some (SetOpenDropdown (Some "短剧")))
  else if in_group from then Some (SetOpenDropdown None) else None.

(** Pointer positions are told apart by their paths, and between any two
    of them React runs at most the wrapper's handler. *)
Lemma hover_handlers_ok vp p st :
  NoDup ([] :: target_paths vp (view_at p st)) ∧
  Forall (λ from, Forall (λ to, hover_handlers from to = option_list (hover_handler from to))
                         ([] :: target_paths vp (view_at p st))) ([] :: target_paths vp (view_at p st)).
Proof. view_cases p st; destruct vp; split; nav_decide. Qed.

Lemma group_positions vp p st :
  Forall (λ path, in_group path = true →
                  vp = Desktop ∧ (ETag TDiv, group_attrs "短剧") ∈ targets vp (view_at p st))
         (target_paths vp (view_at p st)).
Proof. view_cases p st; destruct vp; nav_decide. Qed.

(** Nothing the keyboard can activate writes [openDropdown], and with the
    dropdown closed no focusable element of the desktop bar links to its
    children. *)
Definition writes_dropdown (ea : Elt * list Attr) : bool :=
  match onclick_of ea.2 with Some (SetOpenDropdown _) => true | _ => false end.

Lemma focus_keeps_dropdown vp p st :
  Forall (λ ea, writes_dropdown ea = false) (focus_targets vp (view_at p st)) ∧
  (openDropdown st === Some "短剧" = false →
   Forall (λ ea, href_of ea.2 ≠ Some "/shorts" ∧ href_of ea.2 ≠ Some "/dailymotion")
          (focus_targets Desktop (view_at p st))).
Proof. view_cases p st; destruct vp; split; try discriminate; intros; nav_decide. Qed.

(** A keyboard activation acts on the focused element or on nothing:
    no ancestor of a focusable element acts on a click. *)
Definition focus_path_ok (path : list (Elt * list Attr)) : bool :=
  match filter (λ ea, actionable ea = true) path with
  | [] => true
  | [ea] => bool_decide (head path = Some ea)
  | _ => false
  end.

Lemma focus_paths_ok vp p st :
  focus_targets vp (view_at p st) = omap head (focus_paths vp (view_at p st)) ∧
  Forall (λ path, focus_path_ok path = true) (focus_paths vp (view_at p st)).
Proof. view_cases p st; destruct vp; split; nav_decide. Qed.

(** No reachable element both calls [onSearchOpen] and navigates. *)
Lemma targets_click_outputs vp p st :
  Forall (λ ea, (length (click_outputs ea) ≤ 1)%nat) (targets vp (view_at p st)).
Proof. view_cases p st; destruct vp; nav_decide. Qed.

Lemma targets_handlers_ok vp p st : Forall handlers_ok (targets vp (view_at p st)).
Proof. view_cases p st; destruct vp; nav_decide. Qed.

Lemma focus_handlers_ok vp p st :
  Forall handlers_ok (focus_targets vp (view_at p st)) ∧
  Forall (λ ea, (length (click_outputs ea) ≤ 1)%nat) (focus_targets vp (view_at p st)).
Proof. view_cases p st; destruct vp; split; nav_decide. Qed.

Lemma hamburger_reachable_mobile p st :
  isMobileMenuOpen st = false →
  (ETag TButton, hamburger_attrs st) ∈ targets Mobile (view_at p st).
Proof.
  change (hamburger_attrs st) with (hamburger_attrs (canon st)).
  view_cases p st; first [discriminate | intros _; nav_decide].
Qed.

Lemma search_reachable vp p st :
  vp = Desktop ∨ isMobileMenuOpen st = false →
  (ETag TButton, search_attrs) ∈ targets vp (view_at p st).
Proof.
  view_cases p st; destruct vp; (intros [?|?]; [discriminate|]) || intros _;
    first [discriminate | nav_decide].
Qed.

(** While the menu is open on a phone the overlay covers the top bar:
    the hamburger, the logo and the search button cannot be clicked,
    and the backdrop can. *)
Lemma open_overlay_covers p st :
  isMobileMenuOpen st = true →
  (ETag TButton, hamburger_attrs st) ∉ targets Mobile (view_at p st) ∧
  (ETag TButton, search_attrs) ∉ targets Mobile (view_at p st) ∧
  (ELink, logo_attrs) ∉ targets Mobile (view_at p st) ∧
  (ETag TDiv, backdrop_attrs) ∈ targets Mobile (view_at p st).
Proof.
  change (hamburger_attrs st) with (hamburger_attrs (canon st)).
  view_cases p st; first [discriminate | intros _; nav_decide].
Qed.

Lemma hamburger_focusable_mobile p st :
  (ETag TButton, hamburger_attrs st) ∈ focus_targets Mobile (view_at p st).
Proof. change (hamburger_attrs st) with (hamburger_attrs (canon st)). view_cases p st; nav_decide. Qed.

Lemma search_focusable vp p st : (ETag TButton, search_attrs) ∈ focus_targets vp (view_at p st).
Proof. view_cases p st; destruct vp; nav_decide. Qed.

(** In every viewport and state some reachable element closes the menu:
    the logo link, or the backdrop while the overlay covers the bar. *)
Lemma closer_reachable vp p st :
  Exists (λ ea, onclick_of ea.2 = Some close_menu) (targets vp (view_at p st)).
Proof. view_cases p st; destruct vp; nav_decide. Qed.

Lemma group_reachable_desktop p st :
  (ETag TDiv, group_attrs "短剧") ∈ targets Desktop (view_at p st).
Proof. view_cases p st; nav_decide. Qed.

(** The elements a press can reach: by the pointer or the keyboard. *)
Definition pressable (vp : Viewport) (ns : list Node) : list (Elt * list Attr) :=
  (targets vp ns ++ focus_targets vp ns)%list.

Lemma mobile_links_close p st :
  Forall (λ ea, ea.1 = ELink → onclick_of ea.2 = Some close_menu)
         (pressable Mobile (view_at p st)).
Proof. view_cases p st; nav_decide. Qed.

Lemma desktop_menu_writers p st :
  Forall (λ ea, sets_menu ea = true → ea = (ELink, logo_attrs)) (pressable Desktop (view_at p st)).
Proof. view_cases p st; nav_decide. Qed.

Section ClickLemmas.
Context {D : Type} `{StyleStore D}.
Implicit Types rt : Runtime D.

Lemma set_state_same rt : set_state rt (rt_state rt) = rt.
Proof. unfold set_state, state_changed. by rewrite bool_decide_false by naive_solver. Qed.

(** A click changes the state, the effect and the body only through
    the element's [onClick]. *)
Lemma click_fields rt ea :
  rt_state (click rt ea) = rt_state (run_opt rt (onclick_of ea.2)) ∧
  rt_effect (click rt ea) = rt_effect (run_opt rt (onclick_of ea.2)) ∧
  rt_doc (click rt ea) = rt_doc (run_opt rt (onclick_of ea.2)).
Proof. unfold click. by destruct ea.1, (href_of ea.2). Qed.

Lemma step_Click_inv rt ea rt' :
  step (Click ea) rt = Some rt' → is_Some (rt_effect rt) ∧ ea ∈ targets_of rt ∧ rt' = click rt ea.
Proof.
  unfold step. destruct (rt_effect rt); [|done].
  intros (Hin & ->)%with_target_Some. split_and!; [by eexists|done..].
Qed.

(** A press: a click or a keyboard activation. *)
Lemma step_press_inv rt ea ev rt' :
  ev = Click ea ∨ ev = Activate ea → step ev rt = Some rt' →
  is_Some (rt_effect rt) ∧ ea ∈ pressable (rt_viewport rt) (view rt) ∧ rt' = click rt ea.
Proof.
  unfold pressable. rewrite elem_of_app.
  intros [->| ->]; [intros (? & ? & ?)%step_Click_inv; naive_solver|].
  unfold step. destruct (rt_effect rt); [|done]. case_decide; [|done].
  intros [= <-]. split_and!; [by eexists|by right|done].
Qed.

(** A pointer move runs at most the wrapper's handler. *)
Lemma pointer_move_handlers rt from to :
  from ∈ pointer_positions rt → to ∈ pointer_positions rt →
  foldl run_handler rt (hover_handlers from to) = run_opt rt (hover_handler from to).
Proof.
  intros Hf Ht. destruct (hover_handlers_ok (rt_viewport rt) (rt_props rt) (rt_state rt)) as [_ Hok].
  rewrite (proj1 (Forall_forall _ _) (proj1 (Forall_forall _ _) Hok from Hf) to Ht).
  by destruct (hover_handler from to).
Qed.

Lemma step_pointer_move rt from to rt' :
  step (PointerMove from to) rt = Some rt' →
  is_Some (rt_effect rt) ∧ from ∈ pointer_positions rt ∧ to ∈ pointer_positions rt ∧
  rt' = run_opt rt (hover_handler from to).
Proof.
  unfold step. destruct (rt_effect rt); [|done]. case_decide as Hft; [|done].
  destruct Hft as [Hf Ht]. intros [= <-]. rewrite pointer_move_handlers by done.
  split_and!; [by eexists|done..].
Qed.

Lemma run_cons ev evs rt rt' :
  run (ev :: evs) rt = Some rt' ↔ ∃ rt1, step ev rt = Some rt1 ∧ run evs rt1 = Some rt'.
Proof. simpl. destruct (step ev rt); simpl; naive_solver. Qed.

Lemma run_opt_state rt oh :
  is_Some (rt_effect rt) →
  rt_state (run_opt rt oh) = match oh with Some h => apply_handler h (rt_state rt)
                                          | None => rt_state rt end.
Proof. intros Hs. destruct oh; [by apply run_handler_fields|done]. Qed.

Lemma run_opt_mounted rt oh :
  is_Some (rt_effect rt) → is_Some (rt_effect (run_opt rt oh)).
Proof. intros Hs. destruct oh; [by apply run_handler_fields|done]. Qed.

Lemma click_mounted rt ea : is_Some (rt_effect rt) → is_Some (rt_effect (click rt ea)).
Proof. intros Hs. rewrite (proj1 (proj2 (click_fields rt ea))). by apply run_opt_mounted. Qed.

Lemma run_opt_out rt oh :
  rt_out (run_opt rt oh) = (rt_out rt ++ default [] (handler_outputs <$> oh))%list.
Proof.
  destruct oh as [h|]; simpl; [|by rewrite app_nil_r].
  unfold run_handler; simpl. by rewrite (proj1 (proj2 (proj2 (set_state_frame rt _)))).
Qed.

Lemma click_out rt ea : rt_out (click rt ea) = (rt_out rt ++ click_outputs ea)%list.
Proof.
  unfold click, click_outputs. rewrite app_assoc, <-run_opt_out.
  destruct ea.1, (href_of ea.2); simpl; try by rewrite app_nil_r. done.
Qed.

Lemma reachable_click rt ea :
  reachable rt → is_Some (rt_effect rt) → ea ∈ targets_of rt → reachable (click rt ea).
Proof. intros Hr Hs Hin. eapply reach_step; [done|]. by apply step_click. Qed.
End ClickLemmas.

(** ** Bubbling: a click acts on one element of its path *)

Section Bubbling.
Context {D : Type} `{StyleStore D}.
Implicit Types rt : Runtime D.

Lemma not_actionable ea :
  ¬ actionable ea = true → onclick_of ea.2 = None ∧ link_info ea = None.
Proof.
  unfold actionable. destruct (onclick_of ea.2), (link_info ea); simpl; try done.
  all: intros []; by rewrite ?orb_true_r.
Qed.

Lemma inactive_frame rt (l : list (Elt * list Attr)) :
  filter (λ ea, actionable ea = true) l = [] →
  foldl (λ r ea, run_opt r (onclick_of ea.2)) rt l = rt ∧ omap link_info l = [].
Proof.
  intros Hl. pose proof (proj1 (filter_nil_iff _ l) Hl) as Hn. split.
  - apply foldl_frame. intros x c Hx. by rewrite (proj1 (not_actionable x (Hn x Hx))).
  - apply omap_all_None. intros x Hx. exact (proj2 (not_actionable x (Hn x Hx))).
Qed.

Lemma dispatch_inactive rt path :
  filter (λ ea, actionable ea = true) path = [] → dispatch_click rt path = rt.
Proof. intros (Hf & Ho)%(inactive_frame rt). unfold dispatch_click. by rewrite Hf, Ho. Qed.

Lemma dispatch_single rt path ea :
  filter (λ ea, actionable ea = true) path = [ea] → dispatch_click rt path = click rt ea.
Proof.
  intros (l1 & l2 & -> & H1 & H2 & _)%filter_singleton_inv.
  destruct (inactive_frame rt l1 H1) as [Hf1 Ho1].
  destruct (inactive_frame (run_opt rt (onclick_of ea.2)) l2 H2) as [Hf2 Ho2].
  unfold dispatch_click. rewrite foldl_app, Hf1. cbn [foldl].
  rewrite Hf2, omap_app, Ho1, app_nil_l, head_omap_cons by done.
  destruct ea as [e attrs]. unfold click, link_info; simpl.
  destruct e; try done. by destruct (href_of attrs).
Qed.

Lemma click_inactive rt ea : ¬ actionable ea = true → click rt ea = rt.
Proof.
  intros [Hc Hl]%not_actionable. unfold click. rewrite Hc. simpl.
  unfold link_info in Hl. destruct ea as [[] attrs]; simpl in *; try done.
  by destruct (href_of attrs).
Qed.
End Bubbling.
