(* ===== verification/Navbar.v ===== *)
(** * Navbar: the theorems about a mounted [Navbar]

    What the component does in every run of [Runtime]: the scroll lock
    follows the menu and is released on unmount; every event refines the
    state machines of [NavState.Spec]; the controls, hover, pointer and
    keyboard behave as the code says, including where the code departs
    from the specification (the findings); and concrete runs on a page
    whose body has no inline style, which witness the theorems. *)

From stdpp Require Import base list strings sets gmap.
From S2P Require Import Prelude NavConfig NavState ScrollLock View Runtime.

(** ** Bubbling and keyboard activation, against the model's [click] *)

Section Bubbling.
Context {D : Type} `{StyleStore D}.
Implicit Types rt : Runtime D.

(** C23. A keyboard activation dispatches a click on the focused element
    that bubbles through its ancestors; that dispatch is the model's
    [click] on the focused element, so [Activate] loses nothing. *)
Theorem activation_dispatch_equiv rt path ea :
  path ∈ focus_paths (rt_viewport rt) (view rt) → head path = Some ea →
  ea ∈ focus_of rt ∧ dispatch_click rt path = click rt ea.
Proof.
  intros Hp Hh. change (view rt) with (view_at (rt_props rt) (rt_state rt)) in *.
  unfold focus_of. change (view rt) with (view_at (rt_props rt) (rt_state rt)).
  destruct (focus_paths_ok (rt_viewport rt) (rt_props rt) (rt_state rt)) as [Ht Hok].
  split.
  - rewrite Ht. apply list_elem_of_omap. by exists path.
  - pose proof (proj1 (Forall_forall _ _) Hok path Hp) as Hpath. unfold focus_path_ok in Hpath.
    destruct (filter _ path) as [|ea' [|]] eqn:Hf; [|rewrite Hh in Hpath|done].
    + rewrite dispatch_inactive by done. symmetry. apply click_inactive.
      destruct path as [|x path]; simplify_eq/=. rewrite filter_cons in Hf.
      case_decide; [done|done].
    + apply bool_decide_eq_true in Hpath. simplify_eq. by apply dispatch_single.
Qed.

(** C20. Clicks bubble (a click on the icon or label inside a button or
    link runs the [onClick]s of all its ancestors): the elements the model
    lets the user click are exactly where a click can land, and a click
    landing anywhere acts on at most one element of its path, a reachable
    one, so that dispatching it is the model's [click] on that element,
    or changes nothing. *)
Theorem bubbling_click_equiv rt path :
  path ∈ target_paths (rt_viewport rt) (view rt) →
  targets_of rt = omap head (target_paths (rt_viewport rt) (view rt)) ∧
  (dispatch_click rt path = rt ∨
   ∃ ea, ea ∈ path ∧ ea ∈ targets_of rt ∧ dispatch_click rt path = click rt ea).
Proof.
  intros Hp. change (view rt) with (view_at (rt_props rt) (rt_state rt)) in *.
  rewrite targets_of_view_at.
  destruct (target_paths_ok (rt_viewport rt) (rt_props rt) (rt_state rt)) as [Ht Hok].
  split; [done|]. pose proof (proj1 (Forall_forall _ _) Hok path Hp) as Hpath.
  unfold path_ok in Hpath. destruct (filter _ path) as [|ea [|]] eqn:Hf; [|right|done].
  - left. by apply dispatch_inactive.
  - assert (Hea : ea ∈ filter (λ ea, actionable ea = true) path) by (rewrite Hf; set_solver).
    apply list_elem_of_filter in Hea as [_ Hea].
    exists ea. split_and!; [done|by apply bool_decide_eq_true in Hpath|by apply dispatch_single].
Qed.
End Bubbling.

(** ** The behaviour of a mounted [Navbar] *)

Section Behaviour.
Context {D : Type} `{StyleStore D}.
Implicit Types rt : Runtime D.

Lemma reachable_locked_iff rt :
  reachable rt → is_Some (rt_effect rt) →
  (scroll_locked (rt_doc rt) ↔ isMobileMenuOpen (rt_state rt) = true).
Proof.
  intros Hr%reachable_inv [slot Hs]. unfold rt_inv in Hr. rewrite Hs in Hr.
  destruct Hr as [Hok Hd]. rewrite scroll_slot_ok_locked by done. by rewrite Hd.
Qed.

(** Clicking a reachable element whose [onClick] is [close_menu]. *)
Lemma click_closer rt ea :
  reachable rt → is_Some (rt_effect rt) → ea ∈ targets_of rt →
  onclick_of ea.2 = Some close_menu →
  step (Click ea) rt = Some (click rt ea) ∧ reachable (click rt ea) ∧
  is_Some (rt_effect (click rt ea)) ∧
  rt_state (click rt ea) = mkNavState false (openDropdown (rt_state rt)) ∧
  style_get (rt_doc (click rt ea)) "overflow" = "unset".
Proof.
  intros Hr Hs Hin Hc. pose proof (click_mounted _ ea Hs) as Hs'.
  pose proof (reachable_click _ _ Hr Hs Hin) as Hr'.
  assert (Hst : rt_state (click rt ea) = mkNavState false (openDropdown (rt_state rt))).
  { by rewrite (proj1 (click_fields rt ea)), run_opt_state, Hc. }
  split_and!; [by apply step_click|done..|].
  by rewrite (inv_overflow _ (reachable_inv _ Hr')), Hst.
Qed.

(** C1. In every run, while [Navbar] is mounted the body's scroll is
    locked exactly when the mobile menu is open (lines 19-28), and the
    effect React keeps committed is the scroll lock for the current
    value of [isMobileMenuOpen]. *)
Theorem scroll_lock_tracks_menu rt :
  reachable rt → is_Some (rt_effect rt) →
  (scroll_locked (rt_doc rt) ↔ isMobileMenuOpen (rt_state rt) = true) ∧
  ∃ slot, rt_effect rt = Some slot ∧ slot_deps slot = isMobileMenuOpen (rt_state rt) ∧
          slot_cleanup slot = scroll_lock_cleanup.
Proof.
  intros Hr Hs. split; [by apply reachable_locked_iff|].
  apply reachable_inv in Hr. destruct Hs as [slot Hs]. unfold rt_inv in Hr.
  rewrite Hs in Hr. destruct Hr as [[Hc _] Hd]. by exists slot.
Qed.

(** C2. Unmounting [Navbar] in any run, the menu open or not, leaves the
    body's overflow ["unset"] (the cleanup of line 25), and the
    unmounted instance receives no further event. *)
Theorem unmount_restores_scroll rt rt' :
  reachable rt → step Unmount rt = Some rt' →
  style_get (rt_doc rt') "overflow" = "unset" ∧ ∀ ev, step ev rt' = None.
Proof.
  intros Hr Hs. pose proof (step_inv _ _ _ (reachable_inv _ Hr) Hs) as Hinv.
  revert Hs Hinv. unfold step. destruct (rt_effect rt); [|done].
  intros [= <-]. unfold rt_inv; simpl. by intros ->.
Qed.

Lemma click_hamburger rt :
  click rt (ETag TButton, hamburger_attrs (rt_state rt)) =
  run_handler rt (hamburger_handler (rt_state rt)).
Proof. done. Qed.

Lemma click_backdrop rt : click rt (ETag TDiv, backdrop_attrs) = run_handler rt close_menu.
Proof. done. Qed.

(** C4. On a phone with the menu closed, the hamburger (line 69) opens
    the menu and locks the scroll; the overlay then covers the
    hamburger, so a second press cannot happen, and a press on the
    backdrop (line 197) restores both the state and the body's overflow. *)
Theorem menu_open_close_roundtrip rt :
  reachable rt → rt_viewport rt = Mobile → is_Some (rt_effect rt) →
  isMobileMenuOpen (rt_state rt) = false →
  ∃ rt1 rt2,
    step (Click (ETag TButton, hamburger_attrs (rt_state rt))) rt = Some rt1 ∧
    isMobileMenuOpen (rt_state rt1) = true ∧ scroll_locked (rt_doc rt1) ∧
    step (Click (ETag TButton, hamburger_attrs (rt_state rt1))) rt1 = None ∧
    step (Click (ETag TDiv, backdrop_attrs)) rt1 = Some rt2 ∧
    rt_state rt2 = rt_state rt ∧
    style_get (rt_doc rt2) "overflow" = style_get (rt_doc rt) "overflow".
Proof.
  intros Hr Hvp Hs Hm.
  assert (Hin : (ETag TButton, hamburger_attrs (rt_state rt)) ∈ targets_of rt).
  { rewrite targets_of_view_at, Hvp. by apply hamburger_reachable_mobile. }
  pose proof (step_click _ _ Hs Hin) as Hstep1. pose proof (reachable_click _ _ Hr Hs Hin) as Hr1.
  rewrite click_hamburger in Hstep1, Hr1.
  destruct (run_handler_fields rt (hamburger_handler (rt_state rt)) Hs)
    as (Hst1 & Hs1 & Hp1 & Hvp1 & _).
  set (rt1 := run_handler rt (hamburger_handler (rt_state rt))) in *.
  assert (Hm1 : isMobileMenuOpen (rt_state rt1) = true).
  { rewrite Hst1. unfold hamburger_handler. by rewrite Hm. }
  destruct (open_overlay_covers (rt_props rt1) (rt_state rt1) Hm1) as (Hham & _ & _ & Hbd).
  rewrite <-Hvp, <-Hvp1, <-targets_of_view_at in Hham, Hbd.
  destruct (click_closer rt1 _ Hr1 Hs1 Hbd eq_refl) as (Hstep2 & _ & _ & Hst2 & Hov2).
  exists rt1, (click rt1 (ETag TDiv, backdrop_attrs)).
  split_and!; [done|done|by apply reachable_locked_iff|by apply step_click_unreachable|done| |].
  - rewrite Hst2, Hst1. destruct (rt_state rt); simpl in *; by subst.
  - by rewrite Hov2, (inv_overflow _ (reachable_inv _ Hr)), Hm.
Qed.
(** C21. From the keyboard the spec's double toggle holds on a phone:
    the hamburger stays in the tab order under the overlay, so activating
    it (Enter or Space) flips the menu, and a second activation (the
    closure of the new render) restores the state and the body's
    overflow. *)
Theorem hamburger_keyboard_toggle rt :
  reachable rt → rt_viewport rt = Mobile → is_Some (rt_effect rt) →
  ∃ rt1 rt2,
    step (Activate (ETag TButton, hamburger_attrs (rt_state rt))) rt = Some rt1 ∧
    isMobileMenuOpen (rt_state rt1) = negb (isMobileMenuOpen (rt_state rt)) ∧
    step (Activate (ETag TButton, hamburger_attrs (rt_state rt1))) rt1 = Some rt2 ∧
    rt_state rt2 = rt_state rt ∧
    style_get (rt_doc rt2) "overflow" = style_get (rt_doc rt) "overflow".
Proof.
  intros Hr Hvp Hs.
  assert (Hstep : ∀ r : Runtime D, reachable r → rt_viewport r = Mobile → is_Some (rt_effect r) →
    step (Activate (ETag TButton, hamburger_attrs (rt_state r))) r =
      Some (run_handler r (hamburger_handler (rt_state r))) ∧
    reachable (run_handler r (hamburger_handler (rt_state r)))).
  { intros r Hr' Hvp' Hs'. rewrite <-click_hamburger.
    assert (Hin : (ETag TButton, hamburger_attrs (rt_state r)) ∈ focus_of r).
    { unfold focus_of. rewrite Hvp'. apply hamburger_focusable_mobile. }
    pose proof (step_activate _ _ Hs' Hin) as Ha. split; [done|]. by eapply reach_step. }
  destruct (run_handler_fields rt (hamburger_handler (rt_state rt)) Hs)
    as (Hst1 & Hs1 & _ & Hvp1 & _).
  set (rt1 := run_handler rt (hamburger_handler (rt_state rt))) in *.
  destruct (Hstep rt) as [Hstep1 Hr1]; [done..|].
  destruct (run_handler_fields rt1 (hamburger_handler (rt_state rt1)) Hs1)
    as (Hst2 & Hs2 & _ & _ & _).
  destruct (Hstep rt1) as [Hstep2 Hr2]; [done|by rewrite Hvp1|done|].
  exists rt1, (run_handler rt1 (hamburger_handler (rt_state rt1))).
  rewrite (inv_overflow _ (reachable_inv _ Hr2)) by done.
  rewrite (inv_overflow _ (reachable_inv _ Hr)) by done.
  split_and!; [done|rewrite Hst1|done|rewrite Hst2, Hst1|rewrite Hst2, Hst1];
    destruct (rt_state rt) as [[] ?]; done.
Qed.
End Behaviour.

Section Controls.
Context {D : Type} `{StyleStore D}.
Implicit Types rt : Runtime D.

(** C6. The search button (line 161), activated from the keyboard in
    every viewport and state, or clicked on a desktop or on a phone with
    the menu closed, calls [onSearchOpen] exactly once and changes
    neither the state nor the body; on a phone with the menu open the
    overlay covers it and a click does not reach it. *)
Theorem search_opens_once rt :
  is_Some (rt_effect rt) →
  (∀ ev, ev = Activate (ETag TButton, search_attrs) ∨
         (ev = Click (ETag TButton, search_attrs) ∧
          (rt_viewport rt = Desktop ∨ isMobileMenuOpen (rt_state rt) = false)) →
   ∃ rt', step ev rt = Some rt' ∧
          rt_out rt' = (rt_out rt ++ [SearchOpened])%list ∧
          rt_state rt' = rt_state rt ∧ rt_doc rt' = rt_doc rt) ∧
  (rt_viewport rt = Mobile → isMobileMenuOpen (rt_state rt) = true →
   step (Click (ETag TButton, search_attrs)) rt = None).
Proof.
  intros Hs. split.
  - intros ev Hev. exists (click rt (ETag TButton, search_attrs)). split.
    + destruct Hev as [->|[-> Hvp]].
      * apply step_activate; [done|]. apply search_focusable.
      * apply step_click; [done|]. rewrite targets_of_view_at. by apply search_reachable.
    + unfold click, run_opt, run_handler; simpl. by rewrite set_state_same.
  - intros Hvp Hm. apply step_click_unreachable. rewrite targets_of_view_at, Hvp.
    apply (open_overlay_covers _ _ Hm).
Qed.

(** C5. On a phone every link the user can click or activate from the
    keyboard closes the menu and releases the scroll lock (lines 83, 233,
    249), on top of navigating. *)
Theorem phone_links_close_menu rt ea ev rt' :
  reachable rt → rt_viewport rt = Mobile → ea.1 = ELink →
  ev = Click ea ∨ ev = Activate ea → step ev rt = Some rt' →
  isMobileMenuOpen (rt_state rt') = false ∧ ¬ scroll_locked (rt_doc rt').
Proof.
  intros Hr Hvp Hl Hev Hstep. pose proof (reach_step _ _ _ Hr Hstep) as Hr'.
  apply (step_press_inv _ ea) in Hstep as (Hs & Hin & ->); [|done].
  rewrite Hvp in Hin.
  pose proof (proj1 (Forall_forall _ _) (mobile_links_close _ _) ea Hin Hl) as Hc.
  assert (Hst : isMobileMenuOpen (rt_state (click rt ea)) = false).
  { rewrite (proj1 (click_fields rt ea)), run_opt_state, Hc by done. done. }
  split; [done|]. rewrite reachable_locked_iff, Hst; [done|done|].
  by apply click_mounted.
Qed.
End Controls.

(** The links of the top bar ([<nav>], lines 57-184) for given props and state. *)
Definition nav_links_at (p : NavbarProps) (st : NavState) : list (string * option string) :=
  match view_at p st with nav :: _ => links nav | [] => [] end.

(** ** The code refines the state machines of the specification *)

Definition dd_ok (st : NavState) : Prop :=
  openDropdown st = None ∨ openDropdown st = Some "短剧".

Lemma handler_dd_ok h st : dropdown_ok (Some h) → dd_ok st → dd_ok (apply_handler h st).
Proof. destruct h; simpl; unfold dd_ok; simpl; naive_solver. Qed.

Lemma handler_keeps_menu h st :
  (match h with SetIsMobileMenuOpen _ => false | _ => true end) = true →
  isMobileMenuOpen (apply_handler h st) = isMobileMenuOpen st.
Proof. by destruct h. Qed.

(** The element a user acts on, as the specification names it: read off
    the element's tag and static attributes, never off its handlers. *)
Inductive Role : Type :=
| RHamburger | RBackdrop | RSidebarLink | RLogo | RGroup (L : string) | ROther.

Definition role_of (ea : Elt * list Attr) : Role :=
  match ea.1 with
  | ETag TButton => if bool_decide (AAriaLabel "菜单" ∈ ea.2) then RHamburger else ROther
  | ETag TDiv =>
      if has_class "backdrop-blur-sm" ea.2 then RBackdrop
      else match key_of ea.2 with
           | Some L => if has_class "group" ea.2 then RGroup L else ROther
           | None => ROther
           end
  | ELink =>
      if has_class "rounded-lg" ea.2 then RSidebarLink
      else if bool_decide (href_of ea.2 = Some "/" ∧ key_of ea.2 = None) then RLogo else ROther
  | _ => ROther
  end.

(** The events of the specification a press on an element is; [None]
    for the logo, which the specification's machines do not list. *)
Definition press_events (ea : Elt * list Attr) : option (list Spec.Event) :=
  match role_of ea with
  | RHamburger => Some [Spec.EMenu Spec.Hamburger]
  | RBackdrop => Some [Spec.EMenu Spec.BackdropClick]
  | RSidebarLink => Some [Spec.EMenu Spec.SidebarLinkClick]
  | RLogo => None
  | _ => Some []
  end.

Definition enter_events (ea : Elt * list Attr) : list Spec.Event :=
  match role_of ea with RGroup L => [Spec.EDropdown (Spec.PointerEnter L)] | _ => [] end.

Definition leave_events (ea : Elt * list Attr) : list Spec.Event :=
  match role_of ea with RGroup L => [Spec.EDropdown (Spec.PointerLeave L)] | _ => [] end.

(** The entries whose wrapper contains a pointer position. *)
Definition path_groups (path : list (Elt * list Attr)) : list string :=
  omap (λ ea, match role_of ea with RGroup L => Some L | _ => None end) path.

(** A pointer move leaves the entries it no longer is in, then enters
    the ones it newly is in. *)
Definition move_events (from to : list (Elt * list Attr)) : list Spec.Event :=
  ((λ L, Spec.EDropdown (Spec.PointerLeave L)) <$>
     filter (λ L, L ∉ path_groups to) (path_groups from)) ++
  ((λ L, Spec.EDropdown (Spec.PointerEnter L)) <$>
     filter (λ L, L ∉ path_groups from) (path_groups to)).

(** The abstraction of a user event to the specification's events. *)
Definition spec_events (ev : UserEvent) : option (list Spec.Event) :=
  match ev with
  | Click ea | Activate ea => press_events ea
  | MouseEnter ea => Some (enter_events ea)
  | MouseLeave ea => Some (leave_events ea)
  | PointerMove from to => Some (move_events from to)
  | Resize _ | Rerender _ | Unmount => Some []
  end.

Definition press_ok (st : NavState) (ea : Elt * list Attr) : bool :=
  match press_events ea with
  | Some es => bool_decide (apply_opt (onclick_of ea.2) st = Spec.run es st)
  | None => true
  end.

Definition hover_ok (st : NavState) (ea : Elt * list Attr) : bool :=
  bool_decide (apply_opt (onmouseenter_of ea.2) st = Spec.run (enter_events ea) st ∧
               apply_opt (onmouseleave_of ea.2) st = Spec.run (leave_events ea) st).

Definition move_ok (st : NavState) (from to : list (Elt * list Attr)) : bool :=
  bool_decide (apply_opt (hover_handler from to) st = Spec.run (move_events from to) st).

(** Split a statement about a state with [dd_ok] into its four values. *)
Ltac dd_cases st :=
  destruct st as [[] o]; unfold dd_ok; simpl; intros [-> | ->].

(** What a user can press, hover or move between, against the
    specification, for each of the four states with [dd_ok]. *)
Lemma press_refines vp p st :
  dd_ok st → Forall (λ ea, press_ok st ea = true) (pressable vp (view_at p st)).
Proof. dd_cases st; destruct p as [[]], vp; nav_decide. Qed.

Lemma hover_refines vp p st :
  dd_ok st → Forall (λ ea, hover_ok st ea = true) (targets vp (view_at p st)).
Proof. dd_cases st; destruct p as [[]], vp; nav_decide. Qed.

Lemma move_refines vp p st :
  dd_ok st →
  Forall (λ from, Forall (λ to, move_ok st from to = true) ([] :: target_paths vp (view_at p st)))
         ([] :: target_paths vp (view_at p st)).
Proof. dd_cases st; destruct p as [[]], vp; nav_decide. Qed.

Section Refinement.
Context {D : Type} `{StyleStore D}.
Implicit Types rt : Runtime D.

(** The handler an event runs, if any, and that it is one the render
    can produce. *)
Lemma step_handler ev rt rt' :
  step ev rt = Some rt' →
  ∃ oh, rt_state rt' = match oh with Some h => apply_handler h (rt_state rt)
                                   | None => rt_state rt end ∧
        dropdown_ok oh.
Proof.
  unfold step. destruct (rt_effect rt) as [slot|] eqn:Hs; [|done].
  assert (Hm : is_Some (rt_effect rt)) by (by eexists).
  destruct ev as [ea|ea|ea|ea|from to| | |]; intros Hstep;
    try (apply with_target_Some in Hstep as [Hin ->];
         rewrite targets_of_view_at in Hin;
         pose proof (proj1 (Forall_forall _ _) (targets_handlers_ok _ _ _) ea Hin)
           as (Hc & He & Hl));
    try (injection Hstep as <-; by exists None).
  - exists (onclick_of ea.2). rewrite (proj1 (click_fields rt ea)). by rewrite run_opt_state.
  - case_decide as Hin; [|done]. injection Hstep as <-.
    pose proof (proj1 (Forall_forall _ _) (proj1 (focus_handlers_ok _ _ _)) ea Hin) as [Hc _].
    exists (onclick_of ea.2). rewrite (proj1 (click_fields rt ea)). by rewrite run_opt_state.
  - exists (onmouseenter_of ea.2). by rewrite run_opt_state.
  - exists (onmouseleave_of ea.2). by rewrite run_opt_state.
  - case_decide as Hft; [|done]. destruct Hft as [Hf Ht]. injection Hstep as <-.
    rewrite pointer_move_handlers by done. exists (hover_handler from to).
    split; [by rewrite run_opt_state|].
    unfold hover_handler. destruct (in_group to), (in_group from); simpl; auto.
Qed.

Lemma reachable_dd_ok rt : reachable rt → dd_ok (rt_state rt).
Proof.
  induction 1 as [p vp d|rt ev rt' _ IH Hstep]; [by left|].
  destruct (step_handler _ _ _ Hstep) as ([h|] & -> & Hh); [|done].
  by apply handler_dd_ok.
Qed.

Lemma run_opt_apply rt oh :
  is_Some (rt_effect rt) → rt_state (run_opt rt oh) = apply_opt oh (rt_state rt).
Proof. intros Hs. rewrite run_opt_state by done. by destruct oh. Qed.

Lemma click_apply rt ea :
  is_Some (rt_effect rt) → rt_state (click rt ea) = apply_opt (onclick_of ea.2) (rt_state rt).
Proof. intros Hs. rewrite (proj1 (click_fields rt ea)). by apply run_opt_apply. Qed.

(** A press on a pressable element moves the state as the element's
    events of the specification do. *)
Lemma press_spec rt ea es :
  reachable rt → is_Some (rt_effect rt) → ea ∈ pressable (rt_viewport rt) (view rt) →
  press_events ea = Some es → rt_state (click rt ea) = Spec.run es (rt_state rt).
Proof.
  intros Hr Hs Hin Hes. rewrite click_apply by done.
  pose proof (proj1 (Forall_forall _ _)
                (press_refines (rt_viewport rt) (rt_props rt) (rt_state rt) (reachable_dd_ok _ Hr))
                ea Hin) as Hok.
  unfold press_ok in Hok. rewrite Hes in Hok. by apply bool_decide_eq_true in Hok.
Qed.

(** C3. The code refines the state machines of section 4.1 of the
    specification: every event of every run moves the state
    [(isMobileMenuOpen, openDropdown)] exactly as the specification's
    events that the event is do, read off the element acted on (the
    hamburger toggles, the backdrop and the sidebar links close, the
    pointer entering or leaving an entry's wrapper opens or clears its
    dropdown, anything else changes nothing). The logo's click, which
    the specification does not list, is the one event with no
    specification events. *)
Theorem step_refines_spec rt ev rt' es :
  reachable rt → step ev rt = Some rt' → spec_events ev = Some es →
  rt_state rt' = Spec.run es (rt_state rt).
Proof.
  intros Hr Hstep Hes. pose proof (reachable_dd_ok _ Hr) as Hdd.
  destruct (rt_effect rt) as [slot|] eqn:Hslot; [|by unfold step in Hstep; rewrite Hslot in Hstep].
  assert (Hs : is_Some (rt_effect rt)) by (by eexists).
  unfold step in Hstep; rewrite Hslot in Hstep.
  destruct ev as [ea|ea|ea|ea|from to|vp|p|]; simpl in Hes.
  - apply with_target_Some in Hstep as [Hin ->].
    apply press_spec; [done..| |done]. apply elem_of_app. by left.
  - case_decide as Hin; [|done]. injection Hstep as <-.
    apply press_spec; [done..| |done]. apply elem_of_app. by right.
  - apply with_target_Some in Hstep as [Hin ->]. injection Hes as <-.
    rewrite run_opt_apply by done.
    pose proof (proj1 (Forall_forall _ _) (hover_refines _ _ _ Hdd) ea Hin) as Hok.
    by apply bool_decide_eq_true in Hok as [-> _].
  - apply with_target_Some in Hstep as [Hin ->]. injection Hes as <-.
    rewrite run_opt_apply by done.
    pose proof (proj1 (Forall_forall _ _) (hover_refines _ _ _ Hdd) ea Hin) as Hok.
    by apply bool_decide_eq_true in Hok as [_ ->].
  - case_decide as Hft; [|done]. destruct Hft as [Hf Ht]. injection Hstep as <-. injection Hes as <-.
    rewrite pointer_move_handlers by done. rewrite run_opt_apply by done.
    pose proof (proj1 (Forall_forall _ _)
                  (proj1 (Forall_forall _ _) (move_refines (rt_viewport rt) (rt_props rt) _ Hdd) from Hf)
                  to Ht) as Hok.
    by apply bool_decide_eq_true in Hok.
  - injection Hes as <-. by injection Hstep as <-.
  - injection Hes as <-. by injection Hstep as <-.
  - injection Hes as <-. by injection Hstep as <-.
Qed.
End Refinement.

Section Desktop.
Context {D : Type} `{StyleStore D}.
Implicit Types rt : Runtime D.

Lemma group_handlers rt L :
  run_opt rt (onmouseenter_of (ETag TDiv, group_attrs L).2) =
    run_handler rt (SetOpenDropdown (Some L)) ∧
  run_opt rt (onmouseleave_of (ETag TDiv, group_attrs L).2) =
    run_handler rt (SetOpenDropdown None).
Proof. done. Qed.

(** C7. On a desktop viewport, hovering the "短剧" entry opens its
    dropdown and the top bar shows the two links [/shorts] and
    [/dailymotion]; leaving it closes the dropdown and both links are
    gone (lines 103, 104, 125). *)
Theorem dropdown_hover rt :
  rt_viewport rt = Desktop → is_Some (rt_effect rt) →
  ∃ rt1 rt2,
    step (MouseEnter (ETag TDiv, group_attrs "短剧")) rt = Some rt1 ∧
    openDropdown (rt_state rt1) = Some "短剧" ∧
    ("/shorts", None) ∈ nav_links_at (rt_props rt1) (rt_state rt1) ∧
    ("/dailymotion", None) ∈ nav_links_at (rt_props rt1) (rt_state rt1) ∧
    step (MouseLeave (ETag TDiv, group_attrs "短剧")) rt1 = Some rt2 ∧
    openDropdown (rt_state rt2) = None ∧
    ("/shorts" ∉ fst <$> nav_links_at (rt_props rt2) (rt_state rt2)) ∧
    ("/dailymotion" ∉ fst <$> nav_links_at (rt_props rt2) (rt_state rt2)).
Proof.
  intros Hvp Hs.
  assert (Hin : ∀ r : Runtime D, rt_viewport r = Desktop →
            (ETag TDiv, group_attrs "短剧") ∈ targets_of r).
  { intros r Hr. rewrite targets_of_view_at, Hr. apply group_reachable_desktop. }
  destruct (run_handler_fields rt (SetOpenDropdown (Some "短剧")) Hs)
    as (Hst1 & Hs1 & Hp1 & Hvp1 & _).
  remember (run_handler rt (SetOpenDropdown (Some "短剧"))) as rt1 eqn:Hrt1.
  destruct (run_handler_fields rt1 (SetOpenDropdown None) Hs1) as (Hst2 & _ & Hp2 & _ & _).
  exists rt1, (run_handler rt1 (SetOpenDropdown None)).
  rewrite (proj1 (step_hover rt _ Hs (Hin rt Hvp))), (proj1 (group_handlers _ _)), <-Hrt1.
  rewrite (proj2 (step_hover rt1 _ Hs1 (Hin rt1 ltac:(by rewrite Hvp1)))),
    (proj2 (group_handlers _ _)).
  rewrite Hst2, Hp2, Hp1, Hst1; simpl.
  destruct (isMobileMenuOpen (rt_state rt)), (rt_props rt) as [[]];
    split_and!; done || nav_decide.
Qed.

(** C8 (finding). After the menu was opened on a phone and the
    viewport grew past the [md] breakpoint, the body stays locked: the
    sidebar, its backdrop and the hamburger are [md:hidden], and every
    control the user can still click or activate from the keyboard,
    except the logo link, leaves the
    menu open and the scroll locked. *)
Theorem desktop_scroll_lock_stuck rt :
  reachable rt → rt_viewport rt = Desktop → is_Some (rt_effect rt) →
  isMobileMenuOpen (rt_state rt) = true →
  scroll_locked (rt_doc rt) ∧
  ∀ ea ev rt', ea ≠ (ELink, logo_attrs) → ev = Click ea ∨ ev = Activate ea →
    step ev rt = Some rt' →
    isMobileMenuOpen (rt_state rt') = true ∧ scroll_locked (rt_doc rt').
Proof.
  intros Hr Hvp Hs Hopen. split; [by apply reachable_locked_iff|].
  intros ea ev rt' Hne Hev Hstep. pose proof (reach_step _ _ _ Hr Hstep) as Hr'.
  apply (step_press_inv _ ea) in Hstep as (_ & Hin & ->); [|done].
  rewrite Hvp in Hin.
  pose proof (proj1 (Forall_forall _ _) (desktop_menu_writers _ _) ea Hin) as Hw.
  assert (Hst : isMobileMenuOpen (rt_state (click rt ea)) = true).
  { rewrite (proj1 (click_fields rt ea)), run_opt_state by done.
    unfold sets_menu in Hw. destruct (onclick_of ea.2) as [h|]; [|done].
    rewrite handler_keeps_menu; [done|]. destruct h; naive_solver. }
  split; [done|]. apply reachable_locked_iff; [done| |done].
  by apply click_mounted.
Qed.
End Desktop.

Section Liveness.
Context {D : Type} `{StyleStore D}.
Implicit Types rt : Runtime D.

(** C18. However the run went, while [Navbar] is mounted the user can
    always close the menu and release the scroll with one click, in
    either viewport: on the logo link, or on the backdrop while the
    overlay covers the top bar. *)
Theorem menu_can_always_close rt :
  reachable rt → is_Some (rt_effect rt) →
  ∃ ea rt', step (Click ea) rt = Some rt' ∧ reachable rt' ∧
            isMobileMenuOpen (rt_state rt') = false ∧ ¬ scroll_locked (rt_doc rt').
Proof.
  intros Hr Hs.
  destruct (proj1 (Exists_exists _ _) (closer_reachable (rt_viewport rt) (rt_props rt) (rt_state rt)))
    as (ea & Hin & Hc).
  destruct (click_closer rt ea Hr Hs Hin Hc) as (Hstep & Hr' & _ & Hst & Hov).
  exists ea, (click rt ea). split_and!; [done|done|by rewrite Hst|].
  unfold scroll_locked. by rewrite Hov.
Qed.
End Liveness.

Section Bounds.
Context {D : Type} `{StyleStore D}.
Implicit Types rt : Runtime D.

Lemma handler_outputs_length h : (length (handler_outputs h) ≤ 1)%nat.
Proof. destruct h; simpl; lia. Qed.

Lemma run_opt_outputs rt oh :
  ∃ os, rt_out (run_opt rt oh) = (rt_out rt ++ os)%list ∧ (length os ≤ 1)%nat.
Proof.
  rewrite run_opt_out. eexists; split; [done|].
  destruct oh; simpl; [apply handler_outputs_length|lia].
Qed.

Lemma step_outputs ev rt rt' :
  step ev rt = Some rt' → ∃ os, rt_out rt' = (rt_out rt ++ os)%list ∧ (length os ≤ 1)%nat.
Proof.
  unfold step. destruct (rt_effect rt); [|done].
  destruct ev as [ea|ea|ea|ea|from to|vp|p|];
    try (intros [= <-]; exists []; simpl; rewrite app_nil_r; split; [done|lia]).
  - intros (Hin & ->)%with_target_Some. exists (click_outputs ea). split; [apply click_out|].
    exact (proj1 (Forall_forall _ _) (targets_click_outputs _ _ _) ea Hin).
  - case_decide as Hin; [|done]. intros [= <-]. exists (click_outputs ea).
    split; [apply click_out|].
    exact (proj1 (Forall_forall _ _) (proj2 (focus_handlers_ok _ _ _)) ea Hin).
  - intros (_ & ->)%with_target_Some. apply run_opt_outputs.
  - intros (_ & ->)%with_target_Some. apply run_opt_outputs.
  - case_decide as Hft; [|done]. destruct Hft as [Hf Ht]. intros [= <-].
    rewrite pointer_move_handlers by done. apply run_opt_outputs.
Qed.

(** C19. Every event sends at most one output out of the component
    (a search request or a navigation): a run of [n] events appends at
    most [n] outputs, in order, to what was sent before. *)
Theorem outputs_bounded evs rt rt' :
  run evs rt = Some rt' →
  ∃ os, rt_out rt' = (rt_out rt ++ os)%list ∧ (length os ≤ length evs)%nat.
Proof.
  revert rt. induction evs as [|ev evs IH]; intros rt; simpl.
  - intros [= <-]. exists []. by rewrite app_nil_r.
  - destruct (step ev rt) as [rt1|] eqn:Hs; simpl; [|done]. intros (os2 & -> & Hl2)%IH.
    destruct (step_outputs _ _ _ Hs) as (os1 & -> & Hl1).
    exists (os1 ++ os2)%list. rewrite app_assoc, length_app. split; [done|lia].
Qed.
End Bounds.

(** ** The pointer over the dropdown *)

Section Pointer.
Context {D : Type} `{StyleStore D}.
Implicit Types rt : Runtime D.

Lemma hover_handler_cases from to :
  hover_handler from to = None ∨
  (in_group to = true ∧ in_group from = false ∧
   hover_handler from to = Some (SetOpenDropdown (Some "短剧"))) ∨
  (in_group to = false ∧ in_group from = true ∧ hover_handler from to = Some (SetOpenDropdown None)).
Proof. unfold hover_handler. destruct (in_group to), (in_group from); naive_solver. Qed.

(** A pointer position inside the wrapper is on a desktop, where the
    wrapper is reachable. *)
Lemma in_group_reachable rt path :
  path ∈ pointer_positions rt → in_group path = true →
  rt_viewport rt = Desktop ∧ (ETag TDiv, group_attrs "短剧") ∈ targets_of rt.
Proof.
  intros [->|Hp]%elem_of_cons; [done|]. intros Hin. rewrite targets_of_view_at.
  exact (proj1 (Forall_forall _ _) (group_positions _ _ _) path Hp Hin).
Qed.

(** C25. The dropdown follows the pointer: a move that enters the
    "短剧" wrapper (lines 100-105) opens it, one that leaves it closes it,
    and any other move leaves it as it was; no move changes the menu,
    the body or the outputs, and on a phone no move changes anything. *)
Theorem dropdown_follows_pointer rt from to rt' :
  reachable rt → step (PointerMove from to) rt = Some rt' →
  openDropdown (rt_state rt') =
    (if in_group to then (if in_group from then openDropdown (rt_state rt) else Some "短剧")
     else if in_group from then None else openDropdown (rt_state rt)) ∧
  isMobileMenuOpen (rt_state rt') = isMobileMenuOpen (rt_state rt) ∧
  rt_doc rt' = rt_doc rt ∧ rt_out rt' = rt_out rt ∧
  (rt_viewport rt = Mobile → rt' = rt).
Proof.
  intros Hr (Hs & Hf & Ht & ->)%step_pointer_move.
  pose proof (reachable_inv _ Hr) as Hinv.
  destruct (hover_handler_cases from to) as [Hh|[(Hto & Hfr & Hh)|(Hto & Hfr & Hh)]];
    rewrite Hh; cbn [run_opt].
  - unfold hover_handler in Hh. split_and!; [|done..].
    destruct (in_group to), (in_group from); done.
  - destruct (run_handler_fields rt (SetOpenDropdown (Some "短剧")) Hs) as (Hst & _ & _ & _ & Hout).
    rewrite Hto, Hfr, Hst, Hout. simpl.
    split_and!; [done|done|exact (set_state_keeps_doc rt (apply_handler (SetOpenDropdown (Some "短剧")) (rt_state rt)) Hinv eq_refl)|by rewrite app_nil_r|].
    intros Hm. by rewrite (proj1 (in_group_reachable rt to Ht Hto)) in Hm.
  - destruct (run_handler_fields rt (SetOpenDropdown None) Hs) as (Hst & _ & _ & _ & Hout).
    rewrite Hto, Hfr, Hst, Hout. simpl.
    split_and!; [done|done|exact (set_state_keeps_doc rt (apply_handler (SetOpenDropdown None) (rt_state rt)) Hinv eq_refl)|by rewrite app_nil_r|].
    intros Hm. by rewrite (proj1 (in_group_reachable rt from Hf Hfr)) in Hm.
Qed.

(** C26. Pointer moves refine the element-level hover events: a move
    runs nothing, or exactly the [onMouseEnter] or the [onMouseLeave] of
    the reachable wrapper, so the refinement of module [Spec] (C3) and
    the hover behaviour (C7) hold of the pointer as the browser moves it. *)
Theorem pointer_move_refines_hover rt from to rt' :
  step (PointerMove from to) rt = Some rt' →
  rt' = rt ∨ step (MouseEnter (ETag TDiv, group_attrs "短剧")) rt = Some rt' ∨
  step (MouseLeave (ETag TDiv, group_attrs "短剧")) rt = Some rt'.
Proof.
  intros (Hs & Hf & Ht & ->)%step_pointer_move.
  destruct (hover_handler_cases from to) as [Hh|[(Hto & _ & Hh)|(_ & Hfr & Hh)]];
    rewrite Hh; [by left|right; left|right; right].
  - by rewrite (proj1 (step_hover rt _ Hs (proj2 (in_group_reachable rt to Ht Hto)))).
  - by rewrite (proj2 (step_hover rt _ Hs (proj2 (in_group_reachable rt from Hf Hfr)))).
Qed.
End Pointer.

(** C27. With the dropdown open on a desktop, both of its links are under
    some pointer position, and every position on them lies inside the
    wrapper (the panel is its child, lines 124-137): moving the pointer
    from the entry to a link does not close the dropdown. *)
Theorem dropdown_links_inside p st :
  openDropdown st = Some "短剧" →
  Forall (λ h, Exists (λ path, head path ≫= link_info = Some (h, None))
                      (target_paths Desktop (view_at p st)) ∧
               Forall (λ path, head path ≫= link_info = Some (h, None) → in_group path = true)
                      (target_paths Desktop (view_at p st)))
         ["/shorts"; "/dailymotion"].
Proof.
  intros Ho. assert (Heq : openDropdown st === Some "短剧" = true) by (by rewrite Ho).
  revert Heq. clear Ho. view_cases p st; first [discriminate | intros _; nav_decide].
Qed.

(** ** Keyboard-only use *)

(** The events of a user without a pointer: keyboard activations, and
    the page resizing or re-rendering the component. *)
Definition keyboard_event (ev : UserEvent) : bool :=
  match ev with Activate _ | Resize _ | Rerender _ => true | _ => false end.

Section Keyboard.
Context {D : Type} `{StyleStore D}.
Implicit Types rt : Runtime D.

Lemma keyboard_step_dropdown ev rt rt' :
  keyboard_event ev = true → step ev rt = Some rt' →
  openDropdown (rt_state rt') = openDropdown (rt_state rt).
Proof.
  intros Hk. unfold step. destruct (rt_effect rt) as [slot|] eqn:Hs; [|done].
  destruct ev as [|ea| | | | | |]; try discriminate; [|by intros [= <-]..].
  case_decide as Hin; [|done]. intros [= <-].
  pose proof (proj1 (Forall_forall _ _) (proj1 (focus_keeps_dropdown _ _ _)) ea Hin) as Hw.
  rewrite (proj1 (click_fields rt ea)), run_opt_state by (by eexists).
  unfold writes_dropdown in Hw. destruct (onclick_of ea.2) as [[]|]; done.
Qed.

(** C28 (finding). The dropdown opens only on hover (lines 103-104; its
    button has no [onClick] or [onFocus]): in every run of keyboard
    events from the mount, [openDropdown] stays [null], and on a desktop
    no element in the tab order links to ["/shorts"] or ["/dailymotion"],
    so a keyboard user of the desktop bar cannot reach them. *)
Theorem keyboard_never_opens_dropdown p vp (d : D) evs rt :
  Forall (λ ev, keyboard_event ev = true) evs → run evs (mount p vp d) = Some rt →
  openDropdown (rt_state rt) = None ∧
  (rt_viewport rt = Desktop →
   Forall (λ ea, href_of ea.2 ≠ Some "/shorts" ∧ href_of ea.2 ≠ Some "/dailymotion")
          (focus_of rt)).
Proof.
  intros Hk Hrun.
  assert (Hd : openDropdown (rt_state rt) = None).
  { change None with (openDropdown (rt_state (mount p vp d))).
    revert Hrun. generalize (mount p vp d). induction Hk as [|ev evs Hev _ IH]; intros r.
    - by intros [= ->].
    - intros (r1 & Hs & Hr)%run_cons. rewrite (IH r1 Hr). exact (keyboard_step_dropdown ev r r1 Hev Hs). }
  split; [done|]. intros Hvp. unfold focus_of. rewrite Hvp.
  apply (proj2 (focus_keeps_dropdown Desktop _ _)). by rewrite Hd.
Qed.
End Keyboard.

(** ** Concrete runs on a page whose body has no inline style *)

Definition demo_mount (vp : Viewport) : Runtime BodyStyle :=
  mount (mkNavbarProps false) vp ∅.

Definition demo_open : Runtime BodyStyle :=
  click (demo_mount Mobile) (ETag TButton, hamburger_attrs initial_state).

Definition demo_resized : Runtime BodyStyle :=
  mkRuntime (rt_props demo_open) Desktop (rt_state demo_open) (rt_effect demo_open)
            (rt_doc demo_open) (rt_out demo_open).

Definition demo_unmounted : Runtime BodyStyle :=
  mkRuntime (rt_props demo_open) Mobile (rt_state demo_open) None
            (style_set (rt_doc demo_open) "overflow" "unset") (rt_out demo_open).

(** The sidebar link to [/history] as the open menu renders it. *)
Definition demo_history_link : Elt * list Attr :=
  default (ELink, []) (head (filter (λ ea, href_of ea.2 = Some "/history") (targets_of demo_open))).

(** A click on the open menu that lands inside an element acting on it
    (the icon of the first sidebar link). *)
Definition demo_path : list (Elt * list Attr) :=
  default [] (head (filter (λ pa, negb (default true (actionable <$> head pa)) &&
                                  existsb actionable pa = true)
                           (target_paths (rt_viewport demo_open) (view demo_open)))).

(** The keyboard activation of the first focusable element of the open
    menu: the hamburger, covered by the overlay. *)
Definition demo_focus_path : list (Elt * list Attr) :=
  default [] (head (focus_paths (rt_viewport demo_open) (view demo_open))).

(** The first pointer position inside the "短剧" wrapper on a desktop:
    the wrapper itself, and the move onto it from outside the component. *)
Definition demo_group_path : list (Elt * list Attr) :=
  default [] (head (filter (λ pa, in_group pa = true)
                           (target_paths Desktop (view (demo_mount Desktop))))).

Definition demo_hovered : Runtime BodyStyle :=
  run_opt (demo_mount Desktop) (hover_handler [] demo_group_path).

(** A keyboard session: the window grows past [md], then the search
    button is activated. *)
Definition demo_keys : list UserEvent := [Resize Desktop; Activate (ETag TButton, search_attrs)].

Definition demo_typed : Runtime BodyStyle :=
  click (mkRuntime (rt_props (demo_mount Mobile)) Desktop (rt_state (demo_mount Mobile))
                   (rt_effect (demo_mount Mobile)) (rt_doc (demo_mount Mobile))
                   (rt_out (demo_mount Mobile)))
        (ETag TButton, search_attrs).

Lemma demo_mount_reachable vp : reachable (demo_mount vp).
Proof. apply reach_mount. Qed.

Lemma demo_open_step :
  step (Click (ETag TButton, hamburger_attrs initial_state)) (demo_mount Mobile) = Some demo_open.
Proof. apply step_click; [by eexists|]. by apply hamburger_reachable_mobile. Qed.

Lemma demo_open_reachable : reachable demo_open.
Proof. eapply reach_step; [apply demo_mount_reachable|apply demo_open_step]. Qed.

Lemma demo_resized_reachable : reachable demo_resized.
Proof. apply (reach_step demo_open (Resize Desktop)); [apply demo_open_reachable|reflexivity]. Qed.

Lemma demo_unmount_step : step Unmount demo_open = Some demo_unmounted.
Proof. reflexivity. Qed.

Lemma scroll_lock_tracks_menu_witness :
  reachable demo_open ∧ is_Some (rt_effect demo_open) ∧
  ((scroll_locked (rt_doc demo_open) ↔ isMobileMenuOpen (rt_state demo_open) = true) ∧
   ∃ slot, rt_effect demo_open = Some slot ∧
           slot_deps slot = isMobileMenuOpen (rt_state demo_open) ∧
           slot_cleanup slot = scroll_lock_cleanup).
Proof.
  split; [apply demo_open_reachable|split; [eexists; reflexivity|]].
  apply scroll_lock_tracks_menu; [apply demo_open_reachable|eexists; reflexivity].
Defined.

Lemma unmount_restores_scroll_witness :
  isMobileMenuOpen (rt_state demo_open) = true ∧
  style_get (rt_doc demo_unmounted) "overflow" = "unset" ∧ ∀ ev, step ev demo_unmounted = None.
Proof.
  split; [reflexivity|].
  apply (unmount_restores_scroll demo_open); [apply demo_open_reachable|apply demo_unmount_step].
Defined.

Lemma menu_open_close_roundtrip_witness :
  ∃ rt1 rt2,
    step (Click (ETag TButton, hamburger_attrs (rt_state (demo_mount Mobile)))) (demo_mount Mobile) = Some rt1 ∧
    isMobileMenuOpen (rt_state rt1) = true ∧ scroll_locked (rt_doc rt1) ∧
    step (Click (ETag TButton, hamburger_attrs (rt_state rt1))) rt1 = None ∧
    step (Click (ETag TDiv, backdrop_attrs)) rt1 = Some rt2 ∧
    rt_state rt2 = rt_state (demo_mount Mobile) ∧
    style_get (rt_doc rt2) "overflow" = style_get (rt_doc (demo_mount Mobile)) "overflow".
Proof.
  apply menu_open_close_roundtrip;
    [apply demo_mount_reachable|reflexivity|eexists; reflexivity|reflexivity].
Defined.

Lemma search_opens_once_witness :
  (∃ rt', step (Activate (ETag TButton, search_attrs)) demo_open = Some rt' ∧
          rt_out rt' = (rt_out demo_open ++ [SearchOpened])%list ∧
          rt_state rt' = rt_state demo_open ∧ rt_doc rt' = rt_doc demo_open) ∧
  step (Click (ETag TButton, search_attrs)) demo_open = None.
Proof.
  destruct (search_opens_once demo_open) as [Hok Hcov]; [eexists; reflexivity|].
  split; [apply Hok; by left|apply Hcov; reflexivity].
Defined.

Lemma menu_can_always_close_witness :
  ∃ ea rt', step (Click ea) demo_resized = Some rt' ∧ reachable rt' ∧
            isMobileMenuOpen (rt_state rt') = false ∧ ¬ scroll_locked (rt_doc rt').
Proof. apply menu_can_always_close; [apply demo_resized_reachable|eexists; reflexivity]. Defined.

Lemma hamburger_keyboard_toggle_witness :
  ∃ rt1 rt2,
    step (Activate (ETag TButton, hamburger_attrs (rt_state (demo_mount Mobile)))) (demo_mount Mobile) = Some rt1 ∧
    isMobileMenuOpen (rt_state rt1) = negb (isMobileMenuOpen (rt_state (demo_mount Mobile))) ∧
    step (Activate (ETag TButton, hamburger_attrs (rt_state rt1))) rt1 = Some rt2 ∧
    rt_state rt2 = rt_state (demo_mount Mobile) ∧
    style_get (rt_doc rt2) "overflow" = style_get (rt_doc (demo_mount Mobile)) "overflow".
Proof.
  apply hamburger_keyboard_toggle; [apply demo_mount_reachable|reflexivity|eexists; reflexivity].
Defined.

Lemma outputs_bounded_witness :
  run [Click (ETag TButton, hamburger_attrs initial_state); Click demo_history_link]
      (demo_mount Mobile) = Some (click demo_open demo_history_link) ∧
  ∃ os, rt_out (click demo_open demo_history_link) = (rt_out (demo_mount Mobile) ++ os)%list ∧
        (length os ≤ 2)%nat.
Proof.
  assert (Hrun : run [Click (ETag TButton, hamburger_attrs initial_state); Click demo_history_link]
                   (demo_mount Mobile) = Some (click demo_open demo_history_link))
    by (vm_compute; reflexivity).
  split; [exact Hrun|]. exact (outputs_bounded _ _ _ Hrun).
Defined.

Lemma bubbling_click_equiv_witness :
  demo_path ∈ target_paths (rt_viewport demo_open) (view demo_open) ∧
  targets_of demo_open = omap head (target_paths (rt_viewport demo_open) (view demo_open)) ∧
  (dispatch_click demo_open demo_path = demo_open ∨
   ∃ ea, ea ∈ demo_path ∧ ea ∈ targets_of demo_open ∧
         dispatch_click demo_open demo_path = click demo_open ea).
Proof.
  assert (Hp : demo_path ∈ target_paths (rt_viewport demo_open) (view demo_open)) by nav_decide.
  split; [exact Hp|]. exact (bubbling_click_equiv demo_open demo_path Hp).
Defined.

Lemma activation_dispatch_equiv_witness :
  head demo_focus_path = Some (ETag TButton, hamburger_attrs (rt_state demo_open)) ∧
  (ETag TButton, hamburger_attrs (rt_state demo_open)) ∈ focus_of demo_open ∧
  dispatch_click demo_open demo_focus_path =
    click demo_open (ETag TButton, hamburger_attrs (rt_state demo_open)).
Proof.
  assert (Hh : head demo_focus_path = Some (ETag TButton, hamburger_attrs (rt_state demo_open)))
    by (vm_compute; reflexivity).
  split; [exact Hh|]. apply activation_dispatch_equiv; [nav_decide|exact Hh].
Defined.

Lemma demo_hover_step : step (PointerMove [] demo_group_path) (demo_mount Desktop) = Some demo_hovered.
Proof. vm_compute. reflexivity. Qed.

Lemma dropdown_follows_pointer_witness :
  openDropdown (rt_state demo_hovered) =
    (if in_group demo_group_path
     then (if in_group [] then openDropdown (rt_state (demo_mount Desktop)) else Some "短剧")
     else if in_group [] then None else openDropdown (rt_state (demo_mount Desktop))) ∧
  isMobileMenuOpen (rt_state demo_hovered) = isMobileMenuOpen (rt_state (demo_mount Desktop)) ∧
  rt_doc demo_hovered = rt_doc (demo_mount Desktop) ∧
  rt_out demo_hovered = rt_out (demo_mount Desktop) ∧
  (rt_viewport (demo_mount Desktop) = Mobile → demo_hovered = demo_mount Desktop).
Proof. apply dropdown_follows_pointer; [apply demo_mount_reachable|apply demo_hover_step]. Defined.

Lemma pointer_move_refines_hover_witness :
  demo_hovered = demo_mount Desktop ∨
  step (MouseEnter (ETag TDiv, group_attrs "短剧")) (demo_mount Desktop) = Some demo_hovered ∨
  step (MouseLeave (ETag TDiv, group_attrs "短剧")) (demo_mount Desktop) = Some demo_hovered.
Proof. apply (pointer_move_refines_hover _ [] demo_group_path). apply demo_hover_step. Defined.

Lemma dropdown_links_inside_witness :
  Forall (λ h, Exists (λ path, head path ≫= link_info = Some (h, None))
                      (target_paths Desktop (view_at (mkNavbarProps false) (mkNavState false (Some "短剧")))) ∧
               Forall (λ path, head path ≫= link_info = Some (h, None) → in_group path = true)
                      (target_paths Desktop (view_at (mkNavbarProps false) (mkNavState false (Some "短剧")))))
         ["/shorts"; "/dailymotion"].
Proof. apply dropdown_links_inside. reflexivity. Defined.

Lemma keyboard_never_opens_dropdown_witness :
  Forall (λ ev, keyboard_event ev = true) demo_keys ∧
  run demo_keys (demo_mount Mobile) = Some demo_typed ∧
  (openDropdown (rt_state demo_typed) = None ∧
   (rt_viewport demo_typed = Desktop →
    Forall (λ ea, href_of ea.2 ≠ Some "/shorts" ∧ href_of ea.2 ≠ Some "/dailymotion")
           (focus_of demo_typed))).
Proof.
  assert (Hk : Forall (λ ev, keyboard_event ev = true) demo_keys) by nav_decide.
  assert (Hr : run demo_keys (demo_mount Mobile) = Some demo_typed) by (vm_compute; reflexivity).
  split; [exact Hk|split; [exact Hr|]]. exact (keyboard_never_opens_dropdown _ _ _ _ _ Hk Hr).
Defined.

Lemma phone_links_close_menu_witness :
  isMobileMenuOpen (click demo_open demo_history_link).(rt_state) = false ∧
  ¬ scroll_locked (click demo_open demo_history_link).(rt_doc).
Proof.
  apply (phone_links_close_menu demo_open demo_history_link (Click demo_history_link)).
  - apply demo_open_reachable.
  - reflexivity.
  - vm_compute. reflexivity.
  - by left.
  - apply step_click; [eexists; reflexivity|]. nav_decide.
Defined.

Lemma step_refines_spec_witness :
  spec_events (Click (ETag TButton, hamburger_attrs initial_state)) =
    Some [Spec.EMenu Spec.Hamburger] ∧
  rt_state demo_open = Spec.run [Spec.EMenu Spec.Hamburger] (rt_state (demo_mount Mobile)).
Proof.
  split; [vm_compute; reflexivity|].
  apply (step_refines_spec _ (Click (ETag TButton, hamburger_attrs initial_state)));
    [apply demo_mount_reachable|apply demo_open_step|vm_compute; reflexivity].
Defined.

Lemma dropdown_hover_witness :
  ∃ rt1 rt2,
    step (MouseEnter (ETag TDiv, group_attrs "短剧")) (demo_mount Desktop) = Some rt1 ∧
    openDropdown (rt_state rt1) = Some "短剧" ∧
    ("/shorts", None) ∈ nav_links_at (rt_props rt1) (rt_state rt1) ∧
    ("/dailymotion", None) ∈ nav_links_at (rt_props rt1) (rt_state rt1) ∧
    step (MouseLeave (ETag TDiv, group_attrs "短剧")) rt1 = Some rt2 ∧
    openDropdown (rt_state rt2) = None ∧
    ("/shorts" ∉ fst <$> nav_links_at (rt_props rt2) (rt_state rt2)) ∧
    ("/dailymotion" ∉ fst <$> nav_links_at (rt_props rt2) (rt_state rt2)).
Proof. apply dropdown_hover; [reflexivity|eexists; reflexivity]. Defined.

Lemma desktop_scroll_lock_stuck_witness :
  scroll_locked (rt_doc demo_resized) ∧
  ∀ ea ev rt', ea ≠ (ELink, logo_attrs) → ev = Click ea ∨ ev = Activate ea →
    step ev demo_resized = Some rt' →
    isMobileMenuOpen (rt_state rt') = true ∧ scroll_locked (rt_doc rt').
Proof.
  apply desktop_scroll_lock_stuck;
    [apply demo_resized_reachable|reflexivity|eexists; reflexivity|reflexivity].
Defined.

(** C16 (finding). Mounting [Navbar] writes ["unset"] over whatever inline
    overflow the body had (the effect runs with the menu closed, line 23),
    and touches no other declaration. *)
Theorem mount_resets_overflow `{StyleStore D} p vp (d : D) :
  style_get (rt_doc (mount p vp d)) "overflow" = "unset" ∧
  ∀ q, q ≠ "overflow" → style_get (rt_doc (mount p vp d)) q = style_get d q.
Proof.
  change (rt_doc (mount p vp d)) with (scroll_lock_effect (isMobileMenuOpen initial_state) d).1.
  split; [apply scroll_lock_effect_overflow|]. intros q Hq. by apply scroll_lock_effect_frame.
Qed.
