(* ===== verification/Page.v ===== *)
(** * Page: [Navbar] inside a page that shares [document.body]

    The body's inline style is a resource of the page, not of the
    component: every mounted [Navbar] writes the same
    [document.body.style.overflow]. This file composes runs of [Runtime]
    over one shared body.

    - [strict_mount] is React's StrictMode in development: after the
      first commit React runs the effect's cleanup and the effect again.
    - [Page] holds two instances whose events interleave in any order;
      each step of one instance writes the body the other sees
      ([page_step], [page_reachable]).

    The per-instance invariant of [Runtime] (the body is locked exactly
    when the menu is open) does not survive the sharing; what survives is
    [page_inv]: the body is locked only while some mounted instance has
    its menu open. The lemmas of section [DocSteps] say how one step of
    an instance can change the body, whatever the body held before. *)

From stdpp Require Import base list strings sets gmap.
From S2P Require Import Prelude NavConfig NavState ScrollLock View Runtime.

Section DocSteps.
Context {D : Type} `{StyleStore D}.
Implicit Types rt : Runtime D.

(** The part of [rt_inv] that does not mention the body: React holds the
    scroll lock's cleanup and remembers the current menu state. *)
Definition slot_ok rt : Prop :=
  match rt_effect rt with
  | Some slot => slot_cleanup slot = scroll_lock_cleanup ∧
                 slot_deps slot = isMobileMenuOpen (rt_state rt)
  | None => True
  end.

Definition mounted rt : bool := bool_decide (is_Some (rt_effect rt)).

Definition open_mounted rt : Prop := mounted rt = true ∧ isMobileMenuOpen (rt_state rt) = true.

(** What a step of an instance can do to the body: nothing, while its
    menu and mount stay as they were; write the overflow of its new menu
    state; or, unmounting, write ["unset"]. *)
Definition doc_step rt rt' : Prop :=
  (rt_doc rt' = rt_doc rt ∧ isMobileMenuOpen (rt_state rt') = isMobileMenuOpen (rt_state rt) ∧
   mounted rt' = mounted rt) ∨
  (mounted rt' = true ∧
   style_get (rt_doc rt') "overflow" = overflow_value (isMobileMenuOpen (rt_state rt'))) ∨
  (mounted rt' = false ∧ style_get (rt_doc rt') "overflow" = "unset").

Lemma doc_step_refl rt : doc_step rt rt.
Proof. by left. Qed.

Lemma doc_step_trans rt1 rt2 rt3 : doc_step rt1 rt2 → doc_step rt2 rt3 → doc_step rt1 rt3.
Proof.
  unfold doc_step. intros H12 [(Hd & Hm & Hmt)|[?|?]]; [|by right; left|by right; right].
  rewrite Hd, Hm, Hmt. naive_solver.
Qed.

Lemma set_state_doc rt st' : slot_ok rt → slot_ok (set_state rt st') ∧ doc_step rt (set_state rt st').
Proof.
  intros Hok. unfold set_state. destruct (state_changed _ _); [|split; [done|apply doc_step_refl]].
  destruct (rt_effect rt) as [slot|] eqn:He; [|split; [done|apply doc_step_refl]].
  unfold slot_ok in Hok. rewrite He in Hok. destruct Hok as [Hc Hd]. unfold effect_commit. case_decide as Hdeps.
  - split; [unfold slot_ok; simpl; by rewrite <-Hdeps|].
    left. unfold mounted. simpl. rewrite He. split_and!; [done|congruence|done].
  - destruct (scroll_mount_ok (isMobileMenuOpen st') (slot_cleanup slot (rt_doc rt)))
      as [Hdeps' [Hc' Hov]].
    destruct (effect_mount _ _ _) as [slot' d'] eqn:Hm. simpl in *.
    split; [by unfold slot_ok|]. right; left. split; [done|]. simpl. by rewrite Hov, Hdeps'.
Qed.

Lemma run_handler_doc rt h : slot_ok rt → slot_ok (run_handler rt h) ∧ doc_step rt (run_handler rt h).
Proof. intros Hok. exact (set_state_doc rt _ Hok). Qed.

Lemma run_opt_doc rt oh : slot_ok rt → slot_ok (run_opt rt oh) ∧ doc_step rt (run_opt rt oh).
Proof. destruct oh; [apply run_handler_doc|split; [done|apply doc_step_refl]]. Qed.

Lemma click_doc rt ea : slot_ok rt → slot_ok (click rt ea) ∧ doc_step rt (click rt ea).
Proof.
  intros (Hok & Hd)%(run_opt_doc _ (onclick_of ea.2)). unfold click.
  destruct ea.1, (href_of ea.2); by split.
Qed.

Lemma run_handlers_doc rt hs :
  slot_ok rt → slot_ok (foldl run_handler rt hs) ∧ doc_step rt (foldl run_handler rt hs).
Proof.
  revert rt. induction hs as [|h hs IH]; intros rt Hok; [split; [done|apply doc_step_refl]|].
  simpl. destruct (run_handler_doc rt h Hok) as [Hok1 Hd1].
  destruct (IH _ Hok1) as [Hok2 Hd2]. split; [done|]. by eapply doc_step_trans.
Qed.

(** Every step of an instance keeps [slot_ok] and is a [doc_step]. *)
Lemma step_doc ev rt rt' : slot_ok rt → step ev rt = Some rt' → slot_ok rt' ∧ doc_step rt rt'.
Proof.
  intros Hok. unfold step. destruct (rt_effect rt) as [slot|] eqn:He; [|done].
  destruct ev as [ea|ea|ea|ea|from to|vp|p|]; intros Hs;
    try (apply with_target_Some in Hs as [_ ->]);
    try (case_decide; [|done]); try (injection Hs as <-).
  - by apply click_doc.
  - by apply click_doc.
  - by apply run_opt_doc.
  - by apply run_opt_doc.
  - by apply run_handlers_doc.
  - split; [unfold slot_ok in *; by rewrite He in Hok|left; unfold mounted; by rewrite He].
  - split; [unfold slot_ok in *; by rewrite He in Hok|left; unfold mounted; by rewrite He].
  - split; [done|]. right; right. split; [done|]. simpl.
    unfold slot_ok in Hok. rewrite He in Hok. destruct Hok as [Hc _].
    unfold effect_unmount. rewrite Hc. unfold scroll_lock_cleanup. by rewrite style_get_set_eq.
Qed.

(** After a [doc_step], a locked body is still explained by an open menu:
    the stepping instance's, or whatever explained it before. *)
Lemma doc_step_locked rt rt' (Q : Prop) :
  doc_step rt rt' → (scroll_locked (rt_doc rt) → open_mounted rt ∨ Q) →
  scroll_locked (rt_doc rt') → open_mounted rt' ∨ Q.
Proof.
  unfold scroll_locked, open_mounted.
  intros [(-> & Hm & Hmt)|[[Hmt Hov]|[Hmt Hov]]] HQ Hl.
  - rewrite Hm, Hmt. by apply HQ.
  - left. split; [done|]. rewrite Hov in Hl. by destruct (isMobileMenuOpen _).
  - by rewrite Hov in Hl.
Qed.
End DocSteps.

(** ** Two instances on one page *)

Section TwoInstances.
Context {D : Type} `{StyleStore D}.
Implicit Types rt : Runtime D.

Record Page : Type := mkPage { pg_a : Runtime D; pg_b : Runtime D }.

(** An instance that sees the page's current body. *)
Definition with_doc rt (d : D) : Runtime D :=
  mkRuntime (rt_props rt) (rt_viewport rt) (rt_state rt) (rt_effect rt) d (rt_out rt).

Inductive PageEvent : Type :=
| OnA (ev : UserEvent)
| OnB (ev : UserEvent).

(** The two instances mount in the same commit, [A]'s effect first. *)
Definition page_mount (pa pb : NavbarProps) (vp : Viewport) (d : D) : Page :=
  let a := mount pa vp d in
  let b := mount pb vp (rt_doc a) in
  mkPage (with_doc a (rt_doc b)) b.

(** An event of one instance; the other then sees the body it left. *)
Definition page_step (pe : PageEvent) (pg : Page) : option Page :=
  match pe with
  | OnA ev => a' ← step ev (pg_a pg); Some (mkPage a' (with_doc (pg_b pg) (rt_doc a')))
  | OnB ev => b' ← step ev (pg_b pg); Some (mkPage (with_doc (pg_a pg) (rt_doc b')) b')
  end.

Inductive page_reachable : Page → Prop :=
| page_reach_mount pa pb vp d : page_reachable (page_mount pa pb vp d)
| page_reach_step pg pe pg' : page_reachable pg → page_step pe pg = Some pg' → page_reachable pg'.

(** The invariant of a shared body: both instances hold their scroll
    lock's cleanup, they see one body, and a locked body is explained by
    an open menu of a mounted instance. *)
Definition page_inv (pg : Page) : Prop :=
  slot_ok (pg_a pg) ∧ slot_ok (pg_b pg) ∧ rt_doc (pg_a pg) = rt_doc (pg_b pg) ∧
  (scroll_locked (rt_doc (pg_a pg)) → open_mounted (pg_a pg) ∨ open_mounted (pg_b pg)).

Lemma mount_slot_ok p vp (d : D) :
  slot_ok (mount p vp d) ∧ style_get (rt_doc (mount p vp d)) "overflow" = "unset".
Proof.
  unfold mount. generalize (scroll_mount_ok (isMobileMenuOpen initial_state) d).
  destruct (effect_mount _ _ _) as [slot d']; simpl. intros [Hd [Hc Hov]].
  split; [by split|]. by rewrite Hov, Hd.
Qed.

Lemma page_mount_inv pa pb vp d : page_inv (page_mount pa pb vp d).
Proof.
  unfold page_mount, page_inv. cbn [pg_a pg_b with_doc rt_doc].
  destruct (mount_slot_ok pa vp d) as [Ha _]. destruct (mount_slot_ok pb vp (rt_doc (mount pa vp d))) as [Hb Hov].
  split_and!; [exact Ha|exact Hb|done|]. unfold scroll_locked. by rewrite Hov.
Qed.

Lemma page_step_inv pe pg pg' : page_inv pg → page_step pe pg = Some pg' → page_inv pg'.
Proof.
  intros (Ha & Hb & Hd & Hl). destruct pe as [ev|ev]; simpl.
  - destruct (step ev (pg_a pg)) as [a'|] eqn:Hs; simpl; [|done]. intros [= <-].
    destruct (step_doc _ _ _ Ha Hs) as [Ha' Hda]. unfold page_inv; simpl.
    split_and!; [done|exact Hb|done|]. by apply (doc_step_locked (pg_a pg)).
  - destruct (step ev (pg_b pg)) as [b'|] eqn:Hs; simpl; [|done]. intros [= <-].
    destruct (step_doc _ _ _ Hb Hs) as [Hb' Hdb]. unfold page_inv; simpl.
    split_and!; [exact Ha|done|done|]. intros Hlock.
    destruct (doc_step_locked (pg_b pg) b' (open_mounted (pg_a pg)) Hdb) as [?|?];
      [rewrite <-Hd; intros ?; destruct Hl as [?|?]; by auto|done|by right|by left].
Qed.

Lemma page_reachable_inv pg : page_reachable pg → page_inv pg.
Proof. induction 1; [apply page_mount_inv|by eapply page_step_inv]. Qed.

(** C30. On a page with two [Navbar]s sharing [document.body], in every
    interleaving of their events the body is locked only while some
    mounted instance has its menu open: sharing never leaves the page
    locked with every sidebar closed. *)
Theorem page_lock_has_owner pg :
  page_reachable pg → scroll_locked (rt_doc (pg_b pg)) →
  open_mounted (pg_a pg) ∨ open_mounted (pg_b pg).
Proof. intros (_ & _ & Hd & Hl)%page_reachable_inv. rewrite <-Hd. exact Hl. Qed.

Fixpoint page_run (pes : list PageEvent) (pg : Page) : option Page :=
  match pes with
  | [] => Some pg
  | pe :: pes' => pg' ← page_step pe pg; page_run pes' pg'
  end.

Lemma page_run_reachable pes pg pg' :
  page_reachable pg → page_run pes pg = Some pg' → page_reachable pg'.
Proof.
  revert pg. induction pes as [|pe pes IH]; intros pg Hr; simpl; [by intros [= <-]|].
  destruct (page_step pe pg) as [pg1|] eqn:Hs; simpl; [|done].
  apply IH. by eapply page_reach_step.
Qed.
End TwoInstances.


(** ** StrictMode *)

Section StrictMode.
Context {D : Type} `{StyleStore D}.

Lemma mount_effect p vp (d : D) :
  rt_effect (mount p vp d) = Some (mkEffectSlot (isMobileMenuOpen initial_state) scroll_lock_cleanup).
Proof.
  unfold mount. pose proof (effect_mount_fst scroll_lock_effect (isMobileMenuOpen initial_state) d).
  destruct (effect_mount _ _ _). simpl in *. by subst.
Qed.

Lemma mount_doc p vp (d : D) :
  rt_doc (mount p vp d) = (scroll_lock_effect (isMobileMenuOpen initial_state) d).1.
Proof.
  unfold mount, effect_mount. by destruct (scroll_lock_effect _ _).
Qed.

(** React's StrictMode in development mounts, runs the cleanup of the
    committed effect, and runs the effect again. *)
Definition strict_mount (p : NavbarProps) (vp : Viewport) (d : D) : Runtime D :=
  let rt := mount p vp d in
  match rt_effect rt with
  | Some slot => mount p vp (effect_unmount slot (rt_doc rt))
  | None => rt
  end.

(** C32. The scroll-lock effect is idempotent under StrictMode's double
    invocation: a strict mount commits the same state and effect as a
    plain mount, and leaves every declaration of the body as a plain
    mount does. *)
Theorem strict_mount_equiv p vp (d : D) :
  rt_state (strict_mount p vp d) = rt_state (mount p vp d) ∧
  rt_effect (strict_mount p vp d) = rt_effect (mount p vp d) ∧
  ∀ q, style_get (rt_doc (strict_mount p vp d)) q = style_get (rt_doc (mount p vp d)) q.
Proof.
  unfold strict_mount. rewrite mount_effect. cbn [effect_unmount slot_cleanup].
  split_and!; [by unfold mount; destruct (effect_mount _ _ _)|by rewrite !mount_effect|].
  intros q. rewrite !mount_doc.
  destruct (decide (q = "overflow")) as [->|Hq].
  - by rewrite !scroll_lock_effect_overflow.
  - rewrite (scroll_lock_effect_frame _ _ q Hq). unfold scroll_lock_cleanup.
    rewrite style_get_set_ne; [|done]. by rewrite (scroll_lock_effect_frame _ _ q Hq).
Qed.
End StrictMode.

(** ** A page with two mobile [Navbar]s *)

Definition hamburger_click : UserEvent := Click (ETag TButton, hamburger_attrs initial_state).
Definition backdrop_click : UserEvent := Click (ETag TDiv, backdrop_attrs).

Definition demo_page : Page (D := BodyStyle) :=
  page_mount (mkNavbarProps false) (mkNavbarProps false) Mobile ∅.

(** [A] opens, [B] opens, then [A]'s backdrop closes [A]'s sidebar. *)
Definition demo_both_open_events : list PageEvent := [OnA hamburger_click; OnB hamburger_click].
Definition demo_release_events : list PageEvent := demo_both_open_events ++ [OnA backdrop_click].

Lemma demo_page_reachable : page_reachable demo_page.
Proof. apply page_reach_mount. Qed.

(** C31. The scroll lock is not shared safely: on a page with two mobile
    [Navbar]s, after both sidebars open, closing the first one's sidebar
    runs its effect with [false] and sets the shared body's overflow to
    ["unset"], although the second instance is mounted with its sidebar
    still open. *)
Theorem page_lock_released_early :
  ∃ pg : Page (D := BodyStyle),
    page_reachable pg ∧ open_mounted (pg_b pg) ∧ ¬ scroll_locked (rt_doc (pg_b pg)).
Proof.
  destruct (page_run demo_release_events demo_page) as [pg|] eqn:Hr; [|vm_compute in Hr; discriminate].
  exists pg. split; [exact (page_run_reachable _ _ _ demo_page_reachable Hr)|].
  vm_compute in Hr. injection Hr as <-. unfold open_mounted, scroll_locked. vm_compute.
  split; [done|discriminate].
Qed.

Definition demo_both_open : Page (D := BodyStyle) :=
  default demo_page (page_run demo_both_open_events demo_page).

Lemma demo_both_open_reachable : page_reachable demo_both_open.
Proof.
  apply (page_run_reachable demo_both_open_events demo_page); [apply demo_page_reachable|].
  vm_compute. reflexivity.
Qed.

Lemma page_lock_has_owner_witness :
  page_reachable demo_both_open ∧ scroll_locked (rt_doc (pg_b demo_both_open)) ∧
  (open_mounted (pg_a demo_both_open) ∨ open_mounted (pg_b demo_both_open)).
Proof.
  assert (Hl : scroll_locked (rt_doc (pg_b demo_both_open))) by (vm_compute; reflexivity).
  split_and!; [apply demo_both_open_reachable|exact Hl|].
  exact (page_lock_has_owner demo_both_open demo_both_open_reachable Hl).
Defined.
